(** * OCR-Ollama: the receipt pipeline of [main.py]

    A shallow embedding of the class [OllamaReceiptOCR] and of the library
    calls it relies on, followed by the properties of the JSON recovery
    step, of the record builder and of the orchestrating [process_receipt].

    Python [str] values are sequences of Unicode code points; they are
    modelled as lists of code points, so that slicing, [len] and the
    regular-expression classes count what Python counts. *)

From Stdlib Require Import ZArith NArith Ascii String List Lia DecimalString.
From stdpp Require Import base option list gmap.

Set Default Proof Using "Type".
Set Warnings "-register-all".
Open Scope N_scope.

(** ** Strings *)

Abbreviation str := (list N).

Module Utf8.

(** Source literals are written as UTF-8 byte strings and decoded here
    into code points (one to four bytes per code point). *)
Fixpoint decode (fuel : nat) (bs : list N) : str :=
  match fuel with
  | O => []
  | S fuel =>
      match bs with
      | [] => []
      | b0 :: bs1 =>
          if b0 <? 128 then b0 :: decode fuel bs1
          else if b0 <? 224 then
            match bs1 with
            | b1 :: r => ((b0 - 192) * 64 + (b1 - 128)) :: decode fuel r
            | _ => []
            end
          else if b0 <? 240 then
            match bs1 with
            | b1 :: b2 :: r =>
                ((b0 - 224) * 4096 + (b1 - 128) * 64 + (b2 - 128))
                  :: decode fuel r
            | _ => []
            end
          else
            match bs1 with
            | b1 :: b2 :: b3 :: r =>
                ((b0 - 240) * 262144 + (b1 - 128) * 4096
                 + (b2 - 128) * 64 + (b3 - 128)) :: decode fuel r
            | _ => []
            end
      end
  end.

Definition bytes_of (s : string) : list N :=
  List.map N_of_ascii (list_ascii_of_string s).

Definition of_string (s : string) : str :=
  decode (String.length s) (bytes_of s).

End Utf8.

(** [py "..."] is the Python string literal with the same characters. *)
Definition py (s : string) : str := Utf8.of_string s.

(** [str(n)] for a non-negative integer. *)
Definition str_of_nat (n : nat) : str :=
  py (NilZero.string_of_uint (Nat.to_uint n)).

(** The characters [\s] matches in a [str] pattern, which are also the
    characters [str.strip()] removes: Python's Unicode whitespace. *)
Definition is_space (c : N) : bool :=
  ((9 <=? c) && (c <=? 13)) || ((28 <=? c) && (c <=? 32))
  || (c =? 133) || (c =? 160) || (c =? 5760)
  || ((8192 <=? c) && (c <=? 8202))
  || (c =? 8232) || (c =? 8233) || (c =? 8239) || (c =? 8287)
  || (c =? 12288).

Fixpoint lstrip (s : str) : str :=
  match s with
  | c :: s' => if is_space c then lstrip s' else s
  | [] => []
  end.

Definition rstrip (s : str) : str := rev (lstrip (rev s)).

(** [s.strip()] *)
Definition strip (s : str) : str := rstrip (lstrip s).

(** ** JSON values, as [json.loads] returns them *)

Inductive json : Type :=
  | JNull                               (* None *)
  | JBool (b : bool)
  | JInt (z : Z)
  | JFloat (mantissa exponent : Z)      (* a float, kept as read *)
  | JStr (s : str)
  | JList (l : list json)
  | JDict (d : gmap str json).

(** [d.get(key)]: the value stored under [key], [None] when absent. *)
Definition dict_get (d : gmap str json) (key : str) : json :=
  default JNull (d !! key).

(** ** Regular expressions: the fragment of [re] the two patterns use

    Literals, [.], [\s], concatenation, the greedy [?], greedy [*] and lazy
    [*?] over a one-character atom, and capturing groups.  The matcher is
    the backtracking one: [run] lists every way to match a pattern at the
    front of a string, in the order in which backtracking tries them, and
    [search] keeps the first way found at the leftmost start. *)

Inductive atom : Type :=
  | AChr (c : N)      (* a literal character *)
  | ADot              (* . *)
  | ASpace.           (* \s *)

Inductive regex : Type :=
  | Eps
  | Atom (a : atom)
  | Seq (r1 r2 : regex)
  | Opt (r : regex)               (* r?  *)
  | Star (a : atom)               (* a*  *)
  | StarLazy (a : atom)           (* a*? *)
  | Group (n : nat) (r : regex).  (* ( r ), group number n *)

Infix "⋅" := Seq (at level 60, right associativity).

(** A literal string. *)
Fixpoint lit (s : str) : regex :=
  match s with
  | [] => Eps
  | c :: s' => Atom (AChr c) ⋅ lit s'
  end.

(** Without [re.DOTALL], [.] matches everything but a newline. *)
Definition atom_matches (dotall : bool) (a : atom) (c : N) : bool :=
  match a with
  | AChr c' => c =? c'
  | ADot => dotall || negb (c =? 10)
  | ASpace => is_space c
  end.

(** The groups captured so far, latest first. *)
Abbreviation captures := (list (nat * str)).

(** Greedy repetition: as many characters as possible first. *)
Fixpoint star_greedy (p : N → bool) (s : str) : list str :=
  match s with
  | c :: s' => if p c then star_greedy p s' ++ [s] else [s]
  | [] => [[]]
  end.

(** Lazy repetition: as few characters as possible first. *)
Fixpoint star_lazy (p : N → bool) (s : str) : list str :=
  s :: match s with
       | c :: s' => if p c then star_lazy p s' else []
       | [] => []
       end.

(** [run dotall r (s, cs)]: the strings left after matching [r] at the front
    of [s], with the captures, in backtracking order. *)
Fixpoint run (dotall : bool) (r : regex) (st : str * captures)
  : list (str * captures) :=
  match r with
  | Eps => [st]
  | Atom a =>
      match st.1 with
      | c :: s' => if atom_matches dotall a c then [(s', st.2)] else []
      | [] => []
      end
  | Seq r1 r2 => run dotall r1 st ≫= run dotall r2
  | Opt r => run dotall r st ++ [st]
  | Star a => (λ s', (s', st.2)) <$> star_greedy (atom_matches dotall a) st.1
  | StarLazy a => (λ s', (s', st.2)) <$> star_lazy (atom_matches dotall a) st.1
  | Group n r =>
      (λ st', (st'.1, (n, take (length st.1 - length st'.1) st.1) :: st'.2))
        <$> run dotall r st
  end.

(** A match object: [group0] is [m.group(0)], the text matched. *)
Record Match : Type := { group0 : str; groups : captures }.

Fixpoint assoc (n : nat) (cs : captures) : option str :=
  match cs with
  | [] => None
  | (k, v) :: cs' => if Nat.eqb k n then Some v else assoc n cs'
  end.

(** [m.group(n)]; [None] for a group that took no part in the match. *)
Definition group (m : Match) (n : nat) : option str :=
  match n with
  | O => Some (group0 m)
  | _ => assoc n (groups m)
  end.

(** The match of [r] that starts at the front of [s], if any. *)
Definition match_here (dotall : bool) (r : regex) (s : str) : option Match :=
  (λ st, {| group0 := take (length s - length st.1) s; groups := st.2 |})
    <$> head (run dotall r (s, [])).

(** [re.search]: the start positions are tried from left to right, the
    end of the string included. *)
Fixpoint search (dotall : bool) (r : regex) (s : str) : option Match :=
  match match_here dotall r s with
  | Some m => Some m
  | None =>
      match s with
      | [] => None
      | _ :: s' => search dotall r s'
      end
  end.

(** r'```(?:json)?\s*(\{.*?\})\s*```' *)
Definition fenced_pattern : regex :=
  lit (py "```") ⋅ Opt (lit (py "json")) ⋅ Star ASpace
  ⋅ Group 1 (lit (py "{") ⋅ StarLazy ADot ⋅ lit (py "}"))
  ⋅ Star ASpace ⋅ lit (py "```").

(** r'\{.*\}' *)
Definition brace_pattern : regex :=
  lit (py "{") ⋅ Star ADot ⋅ lit (py "}").

(** ** Data frames *)

(** A [pandas.DataFrame]: the column labels in order, and the rows, whose
    cells hold the values they were built from. *)
Record DataFrame : Type := { columns : list str; rows : list (list json) }.

(** [pd.DataFrame([record])] for one record: the columns are the keys of
    the record in insertion order, the only row holds its values. *)
Definition DataFrame_of_record (record : list (str * json)) : DataFrame :=
  {| columns := record.*1; rows := [record.*2] |}.

(** ** Exceptions, the world and the library *)

Inductive exn : Type :=
  | FileNotFoundError (msg : str)
  | ValueError (msg : str)
  | TypeError (msg : str)
  | AttributeError (msg : str)
  | JSONDecodeError (msg : str)     (* raised by json.loads; in Python a
                                       subclass of ValueError, kept apart
                                       here *)
  | ClientError (msg : str).        (* whatever the Ollama client raises *)

(** [str(e)] *)
Definition str_exn (e : exn) : str :=
  match e with
  | FileNotFoundError m | ValueError m | TypeError m | AttributeError m
  | JSONDecodeError m | ClientError m => m
  end.

(** One call of [client.chat]: the model, the single user message with its
    images, and the options. *)
Record Request : Type := {
  req_host : str;
  req_model : str;
  req_content : str;
  req_images : list str;
  req_temperature : Z;
  req_num_ctx : Z
}.

(** What the program can observe and change: the files by path (there
    are no directories), what was printed, and the calls made to the
    Ollama server, oldest first. *)
Record World : Type := {
  files : gmap str (list N);
  stdout : list str;
  requests : list Request
}.

(** The library functions the class calls.  [json_loads] gives the value
    or the message of the [JSONDecodeError]; what else [json.loads] can
    raise on a [str] (a [RecursionError] on deep nesting, a [ValueError] on
    an integer beyond the digit limit) is not modelled.  [client_chat] gives
    [response['message']['content']] or the message of the error raised,
    and may depend on the calls made before; [to_csv] is
    [df.to_csv(path, index=False)] as the bytes written. *)
Class Library : Type := {
  json_loads : str → str + json;
  client_chat : list Request → Request → str + str;
  b64encode : list N → str;
  to_csv : DataFrame → list N
}.

(** Computations that read and change the world and may raise. *)
Definition M (A : Type) : Type := World → (exn + A) * World.

#[global] Instance M_ret : MRet M := λ A x w, (inr x, w).
#[global] Instance M_bind : MBind M := λ A B f m w,
  match m w with
  | (inr x, w') => f x w'
  | (inl e, w') => (inl e, w')
  end.

Definition raise {A} (e : exn) : M A := λ w, (inl e, w).

(** [try: body  except Exception as e: handler(e)] *)
Definition try_except {A} (body : M A) (handler : exn → M A) : M A := λ w,
  match body w with
  | (inr x, w') => (inr x, w')
  | (inl e, w') => handler e w'
  end.

Definition print (line : str) : M unit := λ w,
  (inr (), {| files := files w; stdout := stdout w ++ [line];
              requests := requests w |}).

(** [Path(p).exists()] *)
Definition path_exists (p : str) : M bool := λ w,
  (inr (bool_decide (is_Some (files w !! p))), w).

(** [open(p, 'rb').read()] *)
Definition read_bytes (p : str) : M (list N) := λ w,
  match files w !! p with
  | Some bs => (inr bs, w)
  | None =>
      (inl (FileNotFoundError
              (py "[Errno 2] No such file or directory: '" ++ p ++ py "'")), w)
  end.

(** Writing a file: it now holds [bs].  The errors the operating system
    may raise on writing are not modelled. *)
Definition write_bytes (p : str) (bs : list N) : M unit := λ w,
  (inr (), {| files := <[p := bs]> (files w); stdout := stdout w;
              requests := requests w |}).

(** [client.chat(...)]: the call is recorded, then answered. *)
Definition chat `{Library} (rq : Request) : M str := λ w,
  let w' := {| files := files w; stdout := stdout w;
               requests := requests w ++ [rq] |} in
  match client_chat (requests w) rq with
  | inr content => (inr content, w')
  | inl msg => (inl (ClientError msg), w')
  end.

(** [json.loads(s)]; [s] is [None] when it comes from a group that did not
    take part in the match. *)
Definition loads `{Library} (s : option str) : exn + json :=
  match s with
  | Some s =>
      match json_loads s with
      | inr v => inr v
      | inl msg => inl (JSONDecodeError msg)
      end
  | None =>
      inl (TypeError
             (py "the JSON object must be str, bytes or bytearray, not NoneType"))
  end.

(** ** The class [OllamaReceiptOCR] *)

Record OllamaReceiptOCR : Type := {
  host : str;
  vision_model : str;
  text_model : str
}.

(** [__init__], once [ollama.Client(host=host)] has returned: the client
    is kept as the host it was made for.  That the constructor may raise is
    part of [main] below. *)
Definition init (host : str) : OllamaReceiptOCR :=
  {| host := host; vision_model := py "llama3.2-vision";
     text_model := py "llama3" |}.

Definition default_host : str := py "http://localhost:11434".

Definition nl : str := [10].

(** The lines of a triple-quoted literal, joined by newlines. *)
Fixpoint unlines (ls : list str) : str :=
  match ls with
  | [] => []
  | [l] => l
  | l :: ls' => l ++ nl ++ unlines ls'
  end.

Section Methods.
Context `{Library}.

Definition vision_prompt : str :=
  py "Extract all text from this Brazilian property registry document (certidão de imóvel). Read all visible text carefully, including registry numbers, names, addresses, CPF, dates, and property details.".

Definition extract_image_data (self : OllamaReceiptOCR) (image_path : str)
  : M str :=
  print (py "Extraindo dados da imagem: " ++ image_path);;
  try_except
    (bytes ← read_bytes image_path;
     let image_data := b64encode bytes in
     print (py "Imagem convertida para base64 ("
            ++ str_of_nat (length image_data) ++ py " bytes)");;
     response ← chat {| req_host := host self;
                        req_model := vision_model self;
                        req_content := vision_prompt;
                        req_images := [image_data];
                        req_temperature := 0;
                        req_num_ctx := 2048 |};
     let extracted_text := strip response in
     print (py "Dados extraídos com sucesso ("
            ++ str_of_nat (length extracted_text) ++ py " caracteres)");;
     mret extracted_text)
    (λ e,
       print (py "Erro ao extrair dados da imagem: " ++ str_exn e);;
       raise e).

Definition structure_prompt (text : str) : str :=
  unlines [
    py "Extract the following property registry details from the Brazilian certidão de imóvel text and return them as a structured JSON object.";
    [];
    py "Fields to extract:";
    py "- Matricula (Registry/Matricula Number)";
    py "- Proprietario (Owner name)";
    py "- CPF_Proprietario (Owner CPF)";
    py "- Endereco_Imovel (Property address - street, number, neighborhood)";
    py "- Municipio (City)";
    py "- Estado (State)";
    py "- Area_Terreno (Land area in m²)";
    py "- Registro_Anterior (Previous registry number if mentioned)";
    py "- Data_Registro (Registration date)";
    py "- Cartorio (Registry office name and location)";
    py "- Livro (Book number)";
    py "- Folha (Page number)";
    py "- Observacoes (Any important notes or remarks)";
    [];
    py "Input text:";
    text;
    [];
    py "Return ONLY a valid JSON object, no extra text or explanations. Use null for missing fields.";
    []
  ].

Definition structure_to_json (self : OllamaReceiptOCR) (text : str)
  : M str :=
  print (py "Estruturando dados em JSON...");;
  let prompt := structure_prompt text in
  try_except
    (response ← chat {| req_host := host self;
                        req_model := text_model self;
                        req_content := prompt;
                        req_images := [];
                        req_temperature := 0;
                        req_num_ctx := 2048 |};
     let result := strip response in
     print (py "JSON estruturado com sucesso");;
     mret result)
    (λ e,
       print (py "Erro ao estruturar JSON: " ++ str_exn e);;
       raise e).

(** Lines 140 to 150 of [extract_json_from_response]: the string bound to
    [json_str], or the [ValueError] raised when neither pattern is found. *)
Definition find_json_str (response_text : str) : exn + option str :=
  match search true fenced_pattern response_text with
  | Some json_match => inr (group json_match 1)
  | None =>
      match search true brace_pattern response_text with
      | Some json_match => inr (group json_match 0)
      | None =>
          inl (ValueError
                 (py "Não foi possível encontrar JSON na resposta"))
      end
  end.

(** [json_str[:500]] *)
Definition excerpt (json_str : option str) : str :=
  take 500 (default [] json_str).

Definition extract_json_from_response (self : OllamaReceiptOCR)
    (response_text : str) : M json :=
  print (py "Extraindo JSON da resposta...");;
  match find_json_str response_text with
  | inl e => raise e
  | inr json_str =>
      match loads json_str with
      | inr receipt_dict =>
          print (py "JSON parseado com sucesso");;
          mret receipt_dict
      | inl (JSONDecodeError msg) =>
          print (py "Erro ao parsear JSON: " ++ msg);;
          print (py "JSON string: " ++ excerpt json_str ++ py "...");;
          raise (JSONDecodeError msg)
      | inl e => raise e
      end
  end.

(** The name Python gives to the type of a value, for error messages. *)
Definition type_name (v : json) : str :=
  match v with
  | JNull => py "NoneType"
  | JBool _ => py "bool"
  | JInt _ => py "int"
  | JFloat _ _ => py "float"
  | JStr _ => py "str"
  | JList _ => py "list"
  | JDict _ => py "dict"
  end.

(** [receipt_dict.get(key)]: only a dict has the method. *)
Definition get (receipt_dict : json) (key : str) : exn + json :=
  match receipt_dict with
  | JDict d => inr (dict_get d key)
  | v =>
      inl (AttributeError
             (py "'" ++ type_name v ++ py "' object has no attribute 'get'"))
  end.

(** One entry ["column": receipt_dict.get('key')] of a dict literal,
    evaluated before the entries that follow it. *)
Definition entry (receipt_dict : json) (column key : string)
    (rest : exn + list (str * json)) : exn + list (str * json) :=
  match get receipt_dict (py key) with
  | inl e => inl e
  | inr v =>
      match rest with
      | inl e => inl e
      | inr r => inr ((py column, v) :: r)
      end
  end.

(** The record literal of [create_dataframe], lines 174 to 188. *)
Definition record_of (receipt_dict : json) : exn + list (str * json) :=
  entry receipt_dict "Matricula" "Matricula" (
  entry receipt_dict "Proprietario" "Proprietario" (
  entry receipt_dict "CPF" "CPF_Proprietario" (
  entry receipt_dict "Endereco_Imovel" "Endereco_Imovel" (
  entry receipt_dict "Municipio" "Municipio" (
  entry receipt_dict "Estado" "Estado" (
  entry receipt_dict "Area_Terreno" "Area_Terreno" (
  entry receipt_dict "Registro_Anterior" "Registro_Anterior" (
  entry receipt_dict "Data_Registro" "Data_Registro" (
  entry receipt_dict "Cartorio" "Cartorio" (
  entry receipt_dict "Livro" "Livro" (
  entry receipt_dict "Folha" "Folha" (
  entry receipt_dict "Observacoes" "Observacoes" (
  inr [] ))))))))))))).

Definition create_dataframe (self : OllamaReceiptOCR) (receipt_dict : json)
  : M DataFrame :=
  print (py "Criando DataFrame...");;
  match record_of receipt_dict with
  | inl e => raise e
  | inr record =>
      let df := DataFrame_of_record record in
      print (py "DataFrame criado com " ++ str_of_nat (length (rows df))
             ++ py " linha(s)");;
      mret df
  end.

(** [if output_csv:] holds for a path that is neither [None] nor empty. *)
Definition truthy (output_csv : option str) : bool :=
  match output_csv with
  | Some (_ :: _) => true
  | _ => false
  end.

Definition process_receipt (self : OllamaReceiptOCR) (image_path : str)
    (output_csv : option str) : M (DataFrame * json) :=
  found ← path_exists image_path;
  if negb found then
    raise (FileNotFoundError (py "Arquivo não encontrado: " ++ image_path))
  else
    extracted_text ← extract_image_data self image_path;
    json_response ← structure_to_json self extracted_text;
    receipt_dict ← extract_json_from_response self json_response;
    df ← create_dataframe self receipt_dict;
    (if truthy output_csv then
       write_bytes (default [] output_csv) (to_csv df);;
       print (py "DataFrame salvo em: " ++ default [] output_csv)
     else mret ());;
    mret (df, receipt_dict).

End Methods.

(** ** The vocabulary of the specification *)

(** What it means for a text to match a pattern, without any order among
    the ways to match: [matches dotall r u cs cs'] holds when [r] matches
    exactly [u], turning the captures [cs] into [cs']. *)
Inductive matches (dotall : bool) : regex → str → captures → captures → Prop :=
  | matches_eps cs :
      matches dotall Eps [] cs cs
  | matches_atom a c cs :
      atom_matches dotall a c = true →
      matches dotall (Atom a) [c] cs cs
  | matches_seq r1 r2 u v cs cs1 cs2 :
      matches dotall r1 u cs cs1 →
      matches dotall r2 v cs1 cs2 →
      matches dotall (r1 ⋅ r2) (u ++ v) cs cs2
  | matches_opt_some r u cs cs' :
      matches dotall r u cs cs' →
      matches dotall (Opt r) u cs cs'
  | matches_opt_none r cs :
      matches dotall (Opt r) [] cs cs
  | matches_star a u cs :
      Forall (λ c, atom_matches dotall a c = true) u →
      matches dotall (Star a) u cs cs
  | matches_star_lazy a u cs :
      Forall (λ c, atom_matches dotall a c = true) u →
      matches dotall (StarLazy a) u cs cs
  | matches_group n r u cs cs' :
      matches dotall r u cs cs' →
      matches dotall (Group n r) u cs ((n, u) :: cs').

(** The triple backtick. *)
Definition fence : str := py "```".

(** A run of whitespace, possibly empty. *)
Definition blank (ws : str) : Prop := Forall (λ c, is_space c = true) ws.

(** The optional tag of a fenced block. *)
Definition tagged (tag : str) : Prop := tag = [] ∨ tag = py "json".

(** A span that opens with a brace and closes with one. *)
Definition brace_span (span : str) : Prop :=
  ∃ body, span = py "{" ++ body ++ py "}".

(** A fenced block around a brace-delimited span. *)
Definition fenced_block (tag ws1 span ws2 : str) : str :=
  fence ++ tag ++ ws1 ++ span ++ ws2 ++ fence.

(** [s] holds, after [pre], a triple backtick, an optional tag, whitespace,
    the brace-delimited [span], whitespace and a triple backtick.  Nothing
    is asked of the inside of [span]: it may hold triple backticks of its
    own. *)
Definition fenced_at (s pre tag ws1 span ws2 post : str) : Prop :=
  s = pre ++ fenced_block tag ws1 span ws2 ++ post
  ∧ tagged tag ∧ blank ws1 ∧ brace_span span ∧ blank ws2.

Definition has_fenced_block (s : str) : Prop :=
  ∃ pre tag ws1 span ws2 post, fenced_at s pre tag ws1 span ws2 post.

(** [s] holds an opening brace with a closing brace after it. *)
Definition has_brace_pair (s : str) : Prop :=
  ∃ pre body post, s = pre ++ py "{" ++ body ++ py "}" ++ post.

(** [span] runs from the first opening brace of [s] to its last closing
    brace. *)
Definition first_to_last_brace (s span : str) : Prop :=
  ∃ pre body post,
    s = pre ++ span ++ post ∧ span = py "{" ++ body ++ py "}"
    ∧ (123 ∉ pre) ∧ (125 ∉ post).

(** [sub] occurs in [s] at offset [i]. *)
Definition occurs_at (sub s : str) (i : nat) : Prop :=
  ∃ a b, s = a ++ sub ++ b ∧ length a = i.

(** [s.startswith(p)] *)
Fixpoint startswith (p s : str) : bool :=
  match p, s with
  | [], _ => true
  | c :: p', d :: s' => (c =? d) && startswith p' s'
  | _ :: _, [] => false
  end.

(** [s.find(sub)]: the offset of the first occurrence, if there is one. *)
Fixpoint find (sub s : str) : option nat :=
  if startswith sub s then Some O
  else match s with
       | [] => None
       | _ :: s' => S <$> find sub s'
       end.

(** ** The two searches as scans

    What lines 140 to 148 look for, written without patterns as two scans
    of the text from left to right. *)

(** [t] goes on, after optional whitespace, with a triple backtick. *)
Definition closes (t : str) : bool := startswith fence (lstrip t).

(** When [t] starts with a triple backtick followed, after an optional tag
    json and optional whitespace, by an opening brace: the text after that
    brace. *)
Definition after_opening (t : str) : option str :=
  if startswith fence t then
    let t1 := drop 3 t in
    let t2 := if startswith (py "json") t1 then drop 4 t1 else t1 in
    match lstrip t2 with
    | 123 :: body => Some body
    | _ => None
    end
  else None.

(** The text before the first closing brace of [body] that is followed,
    after optional whitespace, by a triple backtick. *)
Fixpoint upto_closing (body : str) : option str :=
  match body with
  | [] => None
  | c :: rest =>
      if (c =? 125) && closes rest then Some []
      else (c ::.) <$> upto_closing rest
  end.

(** The first tier at the front of [t]: from the opening brace after the
    triple backtick to the first closing brace that whitespace and a triple
    backtick follow. *)
Definition fenced_here (t : str) : option str :=
  body ← after_opening t;
  inner ← upto_closing body;
  Some (py "{" ++ inner ++ py "}").

(** The first tier: [fenced_here] at the leftmost place where it finds
    something. *)
Fixpoint fenced_find (s : str) : option str :=
  match fenced_here s with
  | Some candidate => Some candidate
  | None => match s with
            | [] => None
            | _ :: s' => fenced_find s'
            end
  end.

(** The offset of that place. *)
Fixpoint fenced_offset (s : str) : option nat :=
  match fenced_here s with
  | Some _ => Some O
  | None => match s with
            | [] => None
            | _ :: s' => S <$> fenced_offset s'
            end
  end.

(** The text before the last closing brace of [t]. *)
Fixpoint upto_last_brace (t : str) : option str :=
  match t with
  | [] => None
  | c :: rest =>
      match upto_last_brace rest with
      | Some inner => Some (c :: inner)
      | None => if c =? 125 then Some [] else None
      end
  end.

(** The second tier: from the first opening brace to the last closing
    brace. *)
Fixpoint greedy_find (s : str) : option str :=
  match s with
  | [] => None
  | c :: rest =>
      if c =? 123 then
        (λ inner, py "{" ++ inner ++ py "}") <$> upto_last_brace rest
      else greedy_find rest
  end.

(** The two tiers in their order. *)
Definition two_tier (s : str) : option str :=
  match fenced_find s with
  | Some candidate => Some candidate
  | None => greedy_find s
  end.

(** Double quotes inside a literal are written as apostrophes. *)
Definition pyq (s : string) : str :=
  (λ c, if c =? 39 then 34 else c) <$> py s.

(** The thirteen fields of a structured record, in the order of the data
    model. *)
Definition known_keys : list str :=
  [py "Matricula"; py "Proprietario"; py "CPF_Proprietario";
   py "Endereco_Imovel"; py "Municipio"; py "Estado"; py "Area_Terreno";
   py "Registro_Anterior"; py "Data_Registro"; py "Cartorio"; py "Livro";
   py "Folha"; py "Observacoes"].

(** The column an input key is written to. *)
Definition column_of (key : str) : str :=
  if bool_decide (key = py "CPF_Proprietario") then py "CPF" else key.

(** The output row the specification describes for a parsed mapping. *)
Definition output_row (d : gmap str json) : DataFrame :=
  {| columns := column_of <$> known_keys;
     rows := [dict_get d <$> known_keys] |}.

(** The world after [lines] were printed. *)
Definition printed (lines : list str) (w : World) : World :=
  {| files := files w; stdout := stdout w ++ lines; requests := requests w |}.

(** The world after [bs] was written to the file [p]. *)
Definition written (p : str) (bs : list N) (w : World) : World :=
  {| files := <[p := bs]> (files w); stdout := stdout w;
     requests := requests w |}.

(** The five states of the orchestrator that can fail. *)
Inductive stage : Type := Validate | Extract | Structure | Recover | Build.

Section Stages.
Context `{Library}.

(** [fails_at self image_path w st e w']: in a run started in the world
    [w], the states before [st] succeed and [st] raises [e], leaving the
    world [w']. *)
Inductive fails_at (self : OllamaReceiptOCR) (image_path : str) (w : World)
  : stage → exn → World → Prop :=
  | fails_validate :
      files w !! image_path = None →
      fails_at self image_path w Validate
        (FileNotFoundError (py "Arquivo não encontrado: " ++ image_path)) w
  | fails_extract e w1 :
      is_Some (files w !! image_path) →
      extract_image_data self image_path w = (inl e, w1) →
      fails_at self image_path w Extract e w1
  | fails_structure extracted_text w1 e w2 :
      is_Some (files w !! image_path) →
      extract_image_data self image_path w = (inr extracted_text, w1) →
      structure_to_json self extracted_text w1 = (inl e, w2) →
      fails_at self image_path w Structure e w2
  | fails_recover extracted_text w1 json_response w2 e w3 :
      is_Some (files w !! image_path) →
      extract_image_data self image_path w = (inr extracted_text, w1) →
      structure_to_json self extracted_text w1 = (inr json_response, w2) →
      extract_json_from_response self json_response w2 = (inl e, w3) →
      fails_at self image_path w Recover e w3
  | fails_build extracted_text w1 json_response w2 receipt_dict w3 e w4 :
      is_Some (files w !! image_path) →
      extract_image_data self image_path w = (inr extracted_text, w1) →
      structure_to_json self extracted_text w1 = (inr json_response, w2) →
      extract_json_from_response self json_response w2
      = (inr receipt_dict, w3) →
      create_dataframe self receipt_dict w3 = (inl e, w4) →
      fails_at self image_path w Build e w4.

End Stages.

(** ** A test double for the library

    The properties below hold for every [Library].  To run the class on
    concrete inputs, [Stub] provides one: a small JSON reader (objects,
    arrays, strings with the one-character escapes, integers, [true],
    [false], [null]), the standard base64 alphabet, a plain comma-separated
    writer, and a server that answers as in the end-to-end scenario of the
    specification. *)

Module Stub.

Definition json_ws (c : N) : bool :=
  (c =? 32) || (c =? 9) || (c =? 10) || (c =? 13).

Fixpoint skip_ws (s : str) : str :=
  match s with
  | c :: s' => if json_ws c then skip_ws s' else s
  | [] => []
  end.

Definition is_digit (c : N) : bool := (48 <=? c) && (c <=? 57).

Fixpoint digits (acc : Z) (s : str) : Z * str :=
  match s with
  | c :: s' =>
      if is_digit c then digits (10 * acc + Z.of_N (c - 48)) s' else (acc, s)
  | [] => (acc, [])
  end.

(** The characters of a string literal, after the opening quote. *)
Fixpoint string_body (acc : str) (s : str) : option (str * str) :=
  match s with
  | [] => None
  | 34 :: s' => Some (rev acc, s')
  | 92 :: e :: s' =>
      let unescaped :=
        if e =? 110 then Some 10 else if e =? 116 then Some 9
        else if e =? 114 then Some 13 else if e =? 98 then Some 8
        else if e =? 102 then Some 12
        else if (e =? 34) || (e =? 92) || (e =? 47) then Some e
        else None in
      match unescaped with
      | Some c => string_body (c :: acc) s'
      | None => None
      end
  | c :: s' => if c <? 32 then None else string_body (c :: acc) s'
  end.

Definition starts_with (p s : str) : option str :=
  if bool_decide (take (length p) s = p) then Some (drop (length p) s)
  else None.

Fixpoint value (fuel : nat) (s : str) : option (json * str) :=
  match fuel with
  | O => None
  | S fuel =>
      match skip_ws s with
      | 123 :: s1 =>
          match skip_ws s1 with
          | 125 :: s2 => Some (JDict ∅, s2)
          | _ => members fuel ∅ s1
          end
      | 91 :: s1 =>
          match skip_ws s1 with
          | 93 :: s2 => Some (JList [], s2)
          | _ => elements fuel [] s1
          end
      | 34 :: s1 =>
          match string_body [] s1 with
          | Some (k, s2) => Some (JStr k, s2)
          | None => None
          end
      | 45 :: c :: s1 =>
          if is_digit c then
            let '(z, s2) := digits 0 (c :: s1) in Some (JInt (- z), s2)
          else None
      | c :: s1 =>
          if is_digit c then
            let '(z, s2) := digits 0 (c :: s1) in Some (JInt z, s2)
          else
            match starts_with (py "true") (c :: s1) with
            | Some s2 => Some (JBool true, s2)
            | None =>
                match starts_with (py "false") (c :: s1) with
                | Some s2 => Some (JBool false, s2)
                | None =>
                    match starts_with (py "null") (c :: s1) with
                    | Some s2 => Some (JNull, s2)
                    | None => None
                    end
                end
            end
      | [] => None
      end
  end
with members (fuel : nat) (d : gmap str json) (s : str)
  : option (json * str) :=
  match fuel with
  | O => None
  | S fuel =>
      match skip_ws s with
      | 34 :: s1 =>
          match string_body [] s1 with
          | Some (k, s2) =>
              match skip_ws s2 with
              | 58 :: s3 =>
                  match value fuel s3 with
                  | Some (v, s4) =>
                      match skip_ws s4 with
                      | 44 :: s5 => members fuel (<[k := v]> d) s5
                      | 125 :: s5 => Some (JDict (<[k := v]> d), s5)
                      | _ => None
                      end
                  | None => None
                  end
              | _ => None
              end
          | None => None
          end
      | _ => None
      end
  end
with elements (fuel : nat) (acc : list json) (s : str)
  : option (json * str) :=
  match fuel with
  | O => None
  | S fuel =>
      match value fuel s with
      | Some (v, s1) =>
          match skip_ws s1 with
          | 44 :: s2 => elements fuel (acc ++ [v]) s2
          | 93 :: s2 => Some (JList (acc ++ [v]), s2)
          | _ => None
          end
      | None => None
      end
  end.

Definition parse (s : str) : str + json :=
  match value (S (length s)) s with
  | Some (v, rest) =>
      match skip_ws rest with
      | [] => inr v
      | _ => inl (py "text after the JSON value")
      end
  | None => inl (py "invalid JSON")
  end.

Definition alphabet : str :=
  py "ABCDEFGHIJKLMNOPQRSTUVWXYZabcdefghijklmnopqrstuvwxyz0123456789+/".

Definition sextet (n : N) : N := nth (N.to_nat (n mod 64)) alphabet 61.

Fixpoint base64 (bs : list N) : str :=
  match bs with
  | [] => []
  | [a] => [sextet (a / 4); sextet (a mod 4 * 16); 61; 61]
  | [a; b] =>
      [sextet (a / 4); sextet (a mod 4 * 16 + b / 16);
       sextet (b mod 16 * 4); 61]
  | a :: b :: c :: bs' =>
      sextet (a / 4) :: sextet (a mod 4 * 16 + b / 16)
        :: sextet (b mod 16 * 4 + c / 64) :: sextet c :: base64 bs'
  end.

Fixpoint join (sep : str) (ls : list str) : str :=
  match ls with
  | [] => []
  | [l] => l
  | l :: ls' => l ++ sep ++ join sep ls'
  end.

(** A cell as written: nothing for [None], the characters of a string,
    the digits of an integer. *)
Definition cell (v : json) : str :=
  match v with
  | JStr s => s
  | JInt z =>
      if (z <? 0)%Z then 45 :: str_of_nat (Z.to_nat (- z))
      else str_of_nat (Z.to_nat z)
  | JBool true => py "True"
  | JBool false => py "False"
  | _ => []
  end.

Definition write_csv (df : DataFrame) : list N :=
  unlines (join (py ",") (columns df)
           :: ((λ r, join (py ",") (cell <$> r)) <$> rows df) ++ [[]]).

Definition scenario_text : str := py "Matricula: 12345, Owner: Jane Doe".

Definition scenario_json : str :=
  py "```json" ++ nl ++ pyq "{'Matricula': '12345', 'Proprietario': 'Jane Doe'}"
  ++ nl ++ py "```".

Definition answer (earlier : list Request) (rq : Request) : str + str :=
  if bool_decide (req_model rq = py "llama3.2-vision") then inr scenario_text
  else inr scenario_json.

(** A server that is down. *)
Definition refusing (earlier : list Request) (rq : Request) : str + str :=
  inl (py "Failed to connect to Ollama").

(** A server that wraps invalid JSON (a trailing comma) in prose. *)
Definition sloppy (earlier : list Request) (rq : Request) : str + str :=
  inr (pyq "Sure: {'Matricula': '12345',} hope it helps").

Definition library : Library :=
  {| json_loads := parse; client_chat := answer;
     b64encode := base64; to_csv := write_csv |}.

Definition library_down : Library :=
  {| json_loads := parse; client_chat := refusing;
     b64encode := base64; to_csv := write_csv |}.

Definition library_sloppy : Library :=
  {| json_loads := parse; client_chat := sloppy;
     b64encode := base64; to_csv := write_csv |}.

(** A world with one image on disk. *)
Definition world : World :=
  {| files := {[ py "certidao.png" := [137; 80; 78; 71] ]};
     stdout := []; requests := [] |}.

End Stub.

(** ** Sample inputs *)

(** A mapping with two known keys, one of them holding a list, and one
    unknown key. *)
Definition sample_dict : gmap str json :=
  {[ py "Matricula" := JStr (py "12345");
     py "Livro" := JList [JInt 2; JDict {[ py "vol" := JInt 7 ]}];
     py "Nota" := JStr (py "x") ]}.

(** A response with one fenced block, prose around it, and braces in the
    prose. *)
Definition prose_before : str := py "Here {as asked} is the record:" ++ nl.
Definition prose_after : str := nl ++ py "Fields not found are {null}.".
Definition fenced_object : str :=
  pyq "{'Matricula': '12345', 'Livro': {'vol': 7}}".
Definition one_block : str :=
  prose_before ++ fenced_block (py "json") nl fenced_object nl ++ prose_after.

(** A response with two fenced blocks; in the first one, text follows the
    brace-delimited span. *)
Definition first_block : str :=
  py "```" ++ nl ++ py "{x} y" ++ nl ++ py "```" ++ nl ++ py "JSON:" ++ nl.
Definition second_object : str := pyq "{'a': 1}".
Definition two_blocks : str :=
  first_block ++ fenced_block (py "json") nl second_object nl.

(** What the fenced pattern captures in [two_blocks]. *)
Definition across_blocks : str :=
  py "{x} y" ++ nl ++ py "```" ++ nl ++ py "JSON:" ++ nl ++ py "```json" ++ nl
  ++ second_object.

(** A response in which a triple backtick of the prose comes before the
    fenced block. *)
Definition fence_in_prose : str :=
  py "Put the record between ``` marks:" ++ nl.
Definition after_a_fence : str :=
  fence_in_prose ++ fenced_block (py "json") nl second_object nl
  ++ prose_after.

(** A response without any brace. *)
Definition no_braces : str := py "I could not read the document.".

(** A response whose only brace-delimited span has a trailing comma. *)
Definition trailing_comma : str :=
  pyq "Sure: {'Matricula': '12345',} hope it helps".

(** ** The requests of a run *)

(** The world after the calls [rqs] were made to the server. *)
Definition called (rqs : list Request) (w : World) : World :=
  {| files := files w; stdout := stdout w; requests := requests w ++ rqs |}.

(** The call [extract_image_data] makes for an encoded image. *)
Definition vision_request (self : OllamaReceiptOCR) (image_data : str)
  : Request :=
  {| req_host := host self; req_model := vision_model self;
     req_content := vision_prompt; req_images := [image_data];
     req_temperature := 0; req_num_ctx := 2048 |}.

(** The call [structure_to_json] makes for an extracted text. *)
Definition text_request (self : OllamaReceiptOCR) (text : str) : Request :=
  {| req_host := host self; req_model := text_model self;
     req_content := structure_prompt text; req_images := [];
     req_temperature := 0; req_num_ctx := 2048 |}.

(** The prompt of [structure_to_json] up to the embedded text, and after
    it. *)
Definition prompt_head : str :=
  unlines [
    py "Extract the following property registry details from the Brazilian certidão de imóvel text and return them as a structured JSON object.";
    [];
    py "Fields to extract:";
    py "- Matricula (Registry/Matricula Number)";
    py "- Proprietario (Owner name)";
    py "- CPF_Proprietario (Owner CPF)";
    py "- Endereco_Imovel (Property address - street, number, neighborhood)";
    py "- Municipio (City)";
    py "- Estado (State)";
    py "- Area_Terreno (Land area in m²)";
    py "- Registro_Anterior (Previous registry number if mentioned)";
    py "- Data_Registro (Registration date)";
    py "- Cartorio (Registry office name and location)";
    py "- Livro (Book number)";
    py "- Folha (Page number)";
    py "- Observacoes (Any important notes or remarks)";
    [];
    py "Input text:";
    []
  ].

Definition prompt_foot : str :=
  unlines [
    [];
    [];
    py "Return ONLY a valid JSON object, no extra text or explanations. Use null for missing fields.";
    []
  ].

(** The line that announces a field in the prompt. *)
Definition field_line (key : str) : str := py "- " ++ key ++ py " (".

(** ** The command line *)

(** The arguments as [parse_args] returns them. *)
Record Namespace : Type := {
  args_image_path : str;
  args_host : str;
  args_output : option str;      (* None without --output *)
  args_show_json : bool
}.

(** What [main] relies on beside the [Library]: the constructor
    [ollama.Client(host=host)] of line 27, which [OllamaReceiptOCR(host=...)]
    runs first; [df.to_string()]; [json.dumps(receipt_dict, indent=2,
    ensure_ascii=False)]; and the encoding of standard output, for which
    [print] raises [UnicodeEncodeError] when it cannot take the text.
    [client_error] and [encode_error] give the message of the exception
    raised, [None] when none is. *)
Class Console : Type := {
  client_error : str → option str;
  to_string : DataFrame → str;
  json_dumps : json → str;
  encode_error : str → option str
}.

(** ["="*80] *)
Definition rule : str := replicate 80 61.

(** How a call of [main] ends: by returning, or by [sys.exit(code)]; and
    what it wrote to the error stream, which replaces what it cannot
    encode and so takes every text. *)
Record Ending : Type := { exit_code : option Z; stderr : list str }.

Section Main.
Context `{Library} `{Console}.

(** The lines [main] displays after the call of [process_receipt]. *)
Definition result_lines (show_json : bool) (df : DataFrame)
    (receipt_dict : json) : list str :=
  [nl ++ rule; py "DATAFRAME RESULTANTE:"; rule; to_string df]
  ++ (if show_json
      then [nl ++ rule; py "JSON ESTRUTURADO:"; rule; json_dumps receipt_dict]
      else [])
  ++ [nl ++ rule; py "Processamento concluído com sucesso!"; rule].

(** [print], line after line, up to the first line that standard output
    cannot encode: the message of that exception, or [None] when every
    line was printed. *)
Fixpoint display (lines : list str) (w : World) : option str * World :=
  match lines with
  | [] => (None, w)
  | line :: rest =>
      match encode_error line with
      | Some msg => (Some msg, w)
      | None => display rest (printed [line] w)
      end
  end.

(** The statements of [main] after the call of [process_receipt]. *)
Definition show_results (show_json : bool) (df : DataFrame)
    (receipt_dict : json) : World → option str * World :=
  display (result_lines show_json df receipt_dict).

(** [main], from the parsed arguments on: whatever is raised inside the
    [try] is reported on the error stream and ends the program with
    status 1. *)
Definition main (args : Namespace) (w : World) : Ending * World :=
  let failed (msg : str) :=
    {| exit_code := Some 1%Z; stderr := [nl ++ py "ERRO: " ++ msg] |} in
  match client_error (args_host args) with
  | Some msg => (failed msg, w)
  | None =>
      let ocr := init (args_host args) in
      match process_receipt ocr (args_image_path args) (args_output args) w
      with
      | (inl e, w1) => (failed (str_exn e), w1)
      | (inr (df, receipt_dict), w1) =>
          match show_results (args_show_json args) df receipt_dict w1 with
          | (Some msg, w2) => (failed msg, w2)
          | (None, w2) => ({| exit_code := None; stderr := [] |}, w2)
          end
      end
  end.

End Main.

(** A console for the test double: every host gives a client, the frame is
    shown as its comma-separated text, the mapping as a fixed placeholder,
    and every text can be printed. *)
Definition stub_console : Console :=
  {| client_error := λ _, None; to_string := Stub.write_csv;
     json_dumps := λ _, py "{...}"; encode_error := λ _, None |}.

(** A console whose encoding is ASCII. *)
Definition ascii_console : Console :=
  {| client_error := λ _, None; to_string := Stub.write_csv;
     json_dumps := λ _, py "{...}";
     encode_error := λ line,
       if forallb (λ c, c <? 128) line then None
       else Some (py "'ascii' codec can't encode character") |}.

(** ** Trimmed strings and the trace of a run *)

(** A string with no whitespace at either end. *)
Definition trimmed (t : str) : Prop :=
  (∀ c, head t = Some c → is_space c = false)
  ∧ (∀ c, last t = Some c → is_space c = false).

(** The lines a run prints when every state succeeds, up to the optional
    line of the persist step. *)
Definition success_lines (image_path image_data extracted_text : str)
  : list str :=
  [py "Extraindo dados da imagem: " ++ image_path;
   py "Imagem convertida para base64 (" ++ str_of_nat (length image_data)
   ++ py " bytes)";
   py "Dados extraídos com sucesso (" ++ str_of_nat (length extracted_text)
   ++ py " caracteres)";
   py "Estruturando dados em JSON...";
   py "JSON estruturado com sucesso";
   py "Extraindo JSON da resposta...";
   py "JSON parseado com sucesso";
   py "Criando DataFrame...";
   py "DataFrame criado com 1 linha(s)"].

(** The line of the persist step, when there is one. *)
Definition saved_line (output_csv : option str) : list str :=
  if truthy output_csv then [py "DataFrame salvo em: " ++ default [] output_csv]
  else [].

(** A server that pads its answers with whitespace. *)
Definition padded_answer : str := nl ++ py "  Matricula: 12345 " ++ nl.

Definition padding (earlier : list Request) (rq : Request) : str + str :=
  if bool_decide (req_model rq = py "llama3.2-vision") then inr padded_answer
  else inr (py "  " ++ Stub.scenario_json ++ nl).

Definition library_padding : Library :=
  {| json_loads := Stub.parse; client_chat := padding;
     b64encode := Stub.base64; to_csv := Stub.write_csv |}.

(** ** More sample inputs *)

(** A response that is the JSON object and nothing else. *)
Definition bare_object : str := pyq "{'Matricula': '12345', 'Folha': '7'}".

(** A response with two objects and no fenced block. *)
Definition two_objects : str :=
  pyq "Draft {'a': 1} and final {'a': 2}.".

(** * Properties *)

(** ** Sanity checks of the embedding *)

Example py_demo : py "Não" = [78; 227; 111].
Proof. reflexivity. Qed.

Example strip_demo : strip (py "  a b " ++ nl) = py "a b".
Proof. reflexivity. Qed.

Example b64_demo :
  Stub.base64 (py "Man") = py "TWFu" ∧ Stub.base64 (py "Ma") = py "TWE=".
Proof. split; reflexivity. Qed.

Example loads_demo :
  Stub.parse (pyq "{'a': [1, -2, null], 'b': {'c': 'x'}}")
  = inr (JDict {[ py "a" := JList [JInt 1; JInt (-2); JNull];
                  py "b" := JDict {[ py "c" := JStr (py "x") ]} ]}).
Proof. vm_compute. reflexivity. Qed.

Example loads_trailing_comma :
  Stub.parse (pyq "{'a': 1,}") = inl (py "invalid JSON").
Proof. vm_compute. reflexivity. Qed.

Example search_fenced_demo :
  search true fenced_pattern one_block
  = Some {| group0 := fenced_block (py "json") nl fenced_object nl;
            groups := [(1%nat, fenced_object)] |}.
Proof. vm_compute. reflexivity. Qed.

Example search_brace_demo :
  group0 <$> search true brace_pattern (py "x {a} y {b} z")
  = Some (py "{a} y {b}").
Proof. vm_compute. reflexivity. Qed.

Example search_brace_without_dotall :
  group0 <$> search false brace_pattern (py "x {a" ++ nl ++ py "} {b} z")
  = Some (py "{b}").
Proof. vm_compute. reflexivity. Qed.

Example find_demo : find fence one_block = Some 31%nat ∧ find fence no_braces = None.
Proof. split; vm_compute; reflexivity. Qed.

(** ** The record builder *)

Section RecordBuilder.
Implicit Types (d : gmap str json) (self : OllamaReceiptOCR) (w : World).

Lemma record_of_dict d :
  record_of (JDict d)
  = inr (zip (column_of <$> known_keys) (dict_get d <$> known_keys)).
Proof. reflexivity. Qed.

Lemma create_dataframe_dict self d w :
  create_dataframe self (JDict d) w
  = (inr (output_row d),
     printed [py "Criando DataFrame..."; py "DataFrame criado com 1 linha(s)"] w).
Proof.
  unfold create_dataframe, printed, print, mbind, M_bind, mret, M_ret.
  rewrite record_of_dict. cbv beta iota. cbn [files stdout requests].
  rewrite <- (assoc_L (++)). reflexivity.
Qed.

Lemma output_row_lookup d i key :
  known_keys !! i = Some key →
  (dict_get d <$> known_keys) !! i = Some (dict_get d key)
  ∧ columns (output_row d) !! i = Some (column_of key).
Proof.
  intros Hi. cbn [columns output_row].
  rewrite !list_lookup_fmap, Hi. done.
Qed.

Lemma dict_get_insert_ne d k v key :
  k ≠ key → dict_get (<[k := v]> d) key = dict_get d key.
Proof. intros Hne. unfold dict_get. by rewrite lookup_insert_ne. Qed.

Lemma output_row_insert_unknown d k v :
  k ∉ known_keys → output_row (<[k := v]> d) = output_row d.
Proof.
  intros Hk. unfold output_row. do 2 f_equal.
  apply list_fmap_ext. intros i key Hi.
  apply dict_get_insert_ne. intros ->.
  apply Hk. by eapply list_elem_of_lookup_2.
Qed.

(** C1: the row built from any parsed mapping has exactly the thirteen
    columns Matricula, Proprietario, CPF, Endereco_Imovel, Municipio,
    Estado, Area_Terreno, Registro_Anterior, Data_Registro, Cartorio,
    Livro, Folha, Observacoes, in that order, whatever keys the mapping
    holds; the column CPF carries the value of the key CPF_Proprietario. *)
Theorem C1_row_has_the_fixed_columns self d w :
  ∃ df w',
    create_dataframe self (JDict d) w = (inr df, w')
    ∧ columns df
      = [py "Matricula"; py "Proprietario"; py "CPF"; py "Endereco_Imovel";
         py "Municipio"; py "Estado"; py "Area_Terreno";
         py "Registro_Anterior"; py "Data_Registro"; py "Cartorio";
         py "Livro"; py "Folha"; py "Observacoes"]
    ∧ length (columns df) = 13%nat
    ∧ rows df
      = [[dict_get d (py "Matricula"); dict_get d (py "Proprietario");
          dict_get d (py "CPF_Proprietario");
          dict_get d (py "Endereco_Imovel"); dict_get d (py "Municipio");
          dict_get d (py "Estado"); dict_get d (py "Area_Terreno");
          dict_get d (py "Registro_Anterior");
          dict_get d (py "Data_Registro"); dict_get d (py "Cartorio");
          dict_get d (py "Livro"); dict_get d (py "Folha");
          dict_get d (py "Observacoes")]].
Proof.
  eexists _, _. split; [apply create_dataframe_dict|].
  repeat split; reflexivity.
Qed.

(** C2: the record builder is total on parsed mappings: it raises
    nothing, a known key that is missing gives null in its field, and a
    key outside the thirteen known keys changes neither the columns nor
    any field of the row. *)
Theorem C2_record_builder_is_total self d w :
  (∃ df w' row,
     create_dataframe self (JDict d) w = (inr df, w')
     ∧ rows df = [row]
     ∧ ∀ i key, known_keys !! i = Some key → d !! key = None →
         row !! i = Some JNull)
  ∧ (∀ k v, k ∉ known_keys →
       create_dataframe self (JDict (<[k := v]> d)) w
       = create_dataframe self (JDict d) w
       ∧ (k ≠ py "CPF" → k ∉ columns (output_row (<[k := v]> d)))).
Proof.
  split.
  - eexists _, _, _. split; [apply create_dataframe_dict|].
    split; [reflexivity|]. intros i key Hi Hnone.
    destruct (output_row_lookup d i key Hi) as [-> _].
    unfold dict_get. by rewrite Hnone.
  - intros k v Hk. split.
    + by rewrite !create_dataframe_dict, output_row_insert_unknown.
    + intros Hcpf. cbn [columns output_row].
      intros (key & -> & Hin)%list_elem_of_fmap.
      unfold column_of in *. case_bool_decide; [done|]. by apply Hk.
Qed.

(** C9: the value stored under a known key is copied into the row as it
    is, whatever its type: numbers, lists and nested objects included. *)
Theorem C9_values_are_copied_verbatim self d w i key v :
  known_keys !! i = Some key →
  d !! key = Some v →
  ∃ df w' row,
    create_dataframe self (JDict d) w = (inr df, w')
    ∧ rows df = [row]
    ∧ columns df !! i = Some (column_of key)
    ∧ row !! i = Some v.
Proof.
  intros Hi Hv. eexists _, _, _. split; [apply create_dataframe_dict|].
  split; [reflexivity|].
  destruct (output_row_lookup d i key Hi) as [Hrow Hcol].
  split; [exact Hcol|]. rewrite Hrow. unfold dict_get. by rewrite Hv.
Qed.

End RecordBuilder.

Lemma C2_witness :
  (∃ df w' row,
     create_dataframe (init default_host) (JDict sample_dict) Stub.world
     = (inr df, w')
     ∧ rows df = [row] ∧ row !! 5%nat = Some JNull)
  ∧ create_dataframe (init default_host)
      (JDict (<[py "Nota" := JInt 1]> sample_dict)) Stub.world
    = create_dataframe (init default_host) (JDict sample_dict) Stub.world.
Proof.
  destruct (C2_record_builder_is_total (init default_host) sample_dict
              Stub.world) as [(df & w' & row & Hrun & Hrows & Hnull) Hign].
  split.
  - exists df, w', row. repeat split; [exact Hrun|exact Hrows|].
    apply (Hnull 5%nat (py "Estado")); vm_compute; reflexivity.
  - apply Hign. apply (bool_decide_unpack _). vm_compute. exact I.
Defined.

Lemma C9_witness :
  ∃ df w' row,
    create_dataframe (init default_host) (JDict sample_dict) Stub.world
    = (inr df, w')
    ∧ rows df = [row]
    ∧ columns df !! 10%nat = Some (py "Livro")
    ∧ row !! 10%nat = Some (JList [JInt 2; JDict {[ py "vol" := JInt 7 ]}]).
Proof.
  apply (C9_values_are_copied_verbatim (init default_host) sample_dict
           Stub.world 10 (py "Livro")); vm_compute; reflexivity.
Defined.

(** ** The matcher *)

Section Matcher.
Variable dotall : bool.
Implicit Types (r : regex) (s u v : str) (cs : captures) (p : N → bool).

Lemma star_greedy_sound p s t :
  t ∈ star_greedy p s → ∃ u, s = u ++ t ∧ Forall (λ c, p c = true) u.
Proof.
  revert t. induction s as [|c s IH]; intros t; cbn.
  - intros ->%list_elem_of_singleton. by exists [].
  - destruct (p c) eqn:Hc.
    + intros [Hin| ->%list_elem_of_singleton]%elem_of_app.
      * destruct (IH _ Hin) as (u & -> & Hu). exists (c :: u). by split; [|constructor].
      * by exists [].
    + intros ->%list_elem_of_singleton. by exists [].
Qed.

Lemma star_greedy_here p s : s ∈ star_greedy p s.
Proof.
  destruct s as [|c s]; cbn; [apply list_elem_of_singleton; done|].
  destruct (p c); [apply elem_of_app; right|]; by apply list_elem_of_singleton.
Qed.

Lemma star_greedy_complete p u t :
  Forall (λ c, p c = true) u → t ∈ star_greedy p (u ++ t).
Proof.
  induction 1 as [|c u Hc _ IH]; [apply star_greedy_here|].
  cbn. rewrite Hc. apply elem_of_app. by left.
Qed.

Lemma star_lazy_sound p s t :
  t ∈ star_lazy p s → ∃ u, s = u ++ t ∧ Forall (λ c, p c = true) u.
Proof.
  revert t. induction s as [|c s IH]; intros t; cbn.
  - intros [->|Hin]%elem_of_cons; [by exists []|]. by apply elem_of_nil in Hin.
  - intros [->|Hin]%elem_of_cons; [by exists []|].
    destruct (p c) eqn:Hc; [|by apply elem_of_nil in Hin].
    destruct (IH _ Hin) as (u & -> & Hu). exists (c :: u). by split; [|constructor].
Qed.

Lemma star_lazy_complete p u t :
  Forall (λ c, p c = true) u → t ∈ star_lazy p (u ++ t).
Proof.
  induction 1 as [|c u Hc _ IH].
  - destruct t; cbn; apply elem_of_cons; by left.
  - cbn. rewrite Hc. apply elem_of_cons. by right.
Qed.

(** Every way to match that the matcher lists is a match. *)
Lemma run_sound r s cs s' cs' :
  (s', cs') ∈ run dotall r (s, cs) →
  ∃ u, s = u ++ s' ∧ matches dotall r u cs cs'.
Proof.
  revert s cs s' cs'.
  induction r as [|a|r1 IH1 r2 IH2|r IH|a|a|n r IH]; intros s cs s' cs'; cbn.
  - intros [= -> ->]%list_elem_of_singleton. exists []. split; [done|constructor].
  - destruct s as [|c s]; [by intros ?%elem_of_nil|].
    destruct (atom_matches dotall a c) eqn:Ha; [|by intros ?%elem_of_nil].
    intros [= -> ->]%list_elem_of_singleton. exists [c]. split; [done|by constructor].
  - intros ([s1 cs1] & H2 & H1)%list_elem_of_bind.
    destruct (IH1 _ _ _ _ H1) as (u & -> & Hu).
    destruct (IH2 _ _ _ _ H2) as (v & -> & Hv).
    exists (u ++ v). split; [by rewrite (assoc_L (++))|by econstructor].
  - intros [Hin|[= -> ->]%list_elem_of_singleton]%elem_of_app.
    + destruct (IH _ _ _ _ Hin) as (u & -> & Hu).
      exists u. split; [done|by apply matches_opt_some].
    + exists []. split; [done|apply matches_opt_none].
  - intros (t & [= -> ->] & Hin)%list_elem_of_fmap.
    destruct (star_greedy_sound _ _ _ Hin) as (u & -> & Hu).
    exists u. split; [done|by constructor].
  - intros (t & [= -> ->] & Hin)%list_elem_of_fmap.
    destruct (star_lazy_sound _ _ _ Hin) as (u & -> & Hu).
    exists u. split; [done|by constructor].
  - intros ([s1 cs1] & [= -> ->] & Hin)%list_elem_of_fmap.
    destruct (IH _ _ _ _ Hin) as (u & -> & Hu). cbn.
    exists u. split; [done|].
    rewrite length_app, Nat.add_sub, take_app_length. by constructor.
Qed.

(** Every match is among the ways the matcher lists. *)
Lemma run_complete r u cs cs' s' :
  matches dotall r u cs cs' → (s', cs') ∈ run dotall r (u ++ s', cs).
Proof.
  intros Hm. revert s'.
  induction Hm as [cs|a c cs Ha|r1 r2 u v cs cs1 cs2 _ IH1 _ IH2
                  |r u cs cs' _ IH|r cs|a u cs Hu|a u cs Hu|n r u cs cs' _ IH];
    intros s'; cbn.
  - by apply list_elem_of_singleton.
  - rewrite Ha. by apply list_elem_of_singleton.
  - apply list_elem_of_bind. exists (v ++ s', cs1).
    split; [apply IH2|]. rewrite <- (assoc_L (++)). apply IH1.
  - apply elem_of_app. left. apply IH.
  - apply elem_of_app. right. by apply list_elem_of_singleton.
  - apply list_elem_of_fmap. exists s'. split; [done|by apply star_greedy_complete].
  - apply list_elem_of_fmap. exists s'. split; [done|by apply star_lazy_complete].
  - apply list_elem_of_fmap. exists (s', cs'). split; [|apply IH].
    cbn. by rewrite length_app, Nat.add_sub, take_app_length.
Qed.

Lemma matches_seq_inv r1 r2 w cs cs' :
  matches dotall (r1 ⋅ r2) w cs cs' →
  ∃ u v cs1, w = u ++ v ∧ matches dotall r1 u cs cs1
             ∧ matches dotall r2 v cs1 cs'.
Proof. inversion 1; subst. eauto 10. Qed.

Lemma matches_opt_inv r w cs cs' :
  matches dotall (Opt r) w cs cs' →
  matches dotall r w cs cs' ∨ (w = [] ∧ cs' = cs).
Proof. inversion 1; subst; auto. Qed.

Lemma matches_star_inv a w cs cs' :
  matches dotall (Star a) w cs cs' →
  Forall (λ c, atom_matches dotall a c = true) w ∧ cs' = cs.
Proof. inversion 1; subst; auto. Qed.

Lemma matches_star_lazy_inv a w cs cs' :
  matches dotall (StarLazy a) w cs cs' →
  Forall (λ c, atom_matches dotall a c = true) w ∧ cs' = cs.
Proof. inversion 1; subst; auto. Qed.

Lemma matches_group_inv n r w cs cs' :
  matches dotall (Group n r) w cs cs' →
  ∃ cs1, matches dotall r w cs cs1 ∧ cs' = (n, w) :: cs1.
Proof. inversion 1; subst; eauto. Qed.

Lemma matches_lit_inv lt w cs cs' :
  matches dotall (lit lt) w cs cs' → w = lt ∧ cs' = cs.
Proof.
  revert w cs. induction lt as [|c lt IH]; intros w cs; cbn.
  - inversion 1; subst; auto.
  - intros (u & v & cs1 & -> & Hu & Hv)%matches_seq_inv.
    inversion Hu as [|a c' cs2 Hc| | | | | |]; subst.
    apply IH in Hv as [-> ->]. cbn in Hc. apply N.eqb_eq in Hc as ->. done.
Qed.

Lemma matches_lit lt cs : matches dotall (lit lt) lt cs cs.
Proof.
  induction lt as [|c lt IH]; cbn; [constructor|].
  apply (matches_seq _ _ _ [c] lt cs cs cs); [|done].
  constructor. cbn. apply N.eqb_refl.
Qed.

(** The match found at the front of a text is a match of a prefix. *)
Lemma match_here_Some r s m :
  match_here dotall r s = Some m →
  ∃ post, s = group0 m ++ post ∧ matches dotall r (group0 m) [] (groups m).
Proof.
  unfold match_here. destruct (run dotall r (s, [])) as [|[s' cs'] l] eqn:Hrun;
    [done|]. cbn. intros [= <-]. cbn.
  assert ((s', cs') ∈ run dotall r (s, [])) as Hin
    by (rewrite Hrun; apply elem_of_cons; by left).
  apply run_sound in Hin as (u & -> & Hu).
  exists s'. by rewrite length_app, Nat.add_sub, take_app_length.
Qed.

Lemma match_here_None r u post cs :
  match_here dotall r (u ++ post) = None → ¬ matches dotall r u [] cs.
Proof.
  unfold match_here. intros Hnone Hm.
  apply (run_complete _ _ _ _ post) in Hm.
  destruct (run dotall r (u ++ post, [])); [by apply elem_of_nil in Hm|done].
Qed.

Lemma match_here_is_Some r u post cs :
  matches dotall r u [] cs → is_Some (match_here dotall r (u ++ post)).
Proof.
  intros Hm. destruct (match_here dotall r (u ++ post)) eqn:Hh; [done|].
  by apply match_here_None with (cs := cs) in Hh.
Qed.

(** [search] is sound: what it returns is a match somewhere in the text. *)
Lemma search_Some r s m :
  search dotall r s = Some m →
  ∃ pre post,
    s = pre ++ group0 m ++ post ∧ matches dotall r (group0 m) [] (groups m).
Proof.
  induction s as [|c s IH]; cbn.
  - destruct (match_here dotall r []) eqn:Hh; [|done]. intros [= ->].
    apply match_here_Some in Hh as (post & Hs & Hm). by exists [], post.
  - destruct (match_here dotall r (c :: s)) eqn:Hh.
    + intros [= ->]. apply match_here_Some in Hh as (post & Hs & Hm).
      by exists [], post.
    + intros (pre & post & -> & Hm)%IH. by exists (c :: pre), post.
Qed.

(** [search] is complete: it fails only when no part of the text matches. *)
Lemma search_is_Some r pre u post cs :
  matches dotall r u [] cs → is_Some (search dotall r (pre ++ u ++ post)).
Proof.
  intros Hm. induction pre as [|c pre IH]; cbn.
  - destruct (match_here_is_Some r u post cs Hm) as [m Hh].
    destruct (u ++ post); cbn; rewrite Hh; done.
  - destruct (match_here dotall r (c :: pre ++ u ++ post)); done.
Qed.

Lemma search_None r pre u post cs :
  search dotall r (pre ++ u ++ post) = None → ¬ matches dotall r u [] cs.
Proof.
  intros Hnone Hm.
  destruct (search_is_Some r pre u post cs Hm) as [m Hs]. congruence.
Qed.

(** [search] is leftmost: start positions where nothing matches are
    skipped. *)
Lemma search_skip r pre t :
  (∀ a b, pre = a ++ b → b ≠ [] → match_here dotall r (b ++ t) = None) →
  search dotall r (pre ++ t) = search dotall r t.
Proof.
  induction pre as [|c pre IH]; intros Hskip; [done|].
  assert (match_here dotall r (c :: pre ++ t) = None) as Hh
    by (by apply (Hskip [] (c :: pre))).
  cbn [search app]. rewrite Hh.
  apply IH. intros a b -> Hb. by apply (Hskip (c :: a) b).
Qed.

End Matcher.

(** ** The two patterns *)

Section Patterns.
Implicit Types (s u v span body tag ws : str) (cs : captures).

(** What the fenced pattern matches: exactly the fenced blocks around a
    brace-delimited span, which it captures as group 1. *)
Lemma fenced_pattern_matches u cs :
  matches true fenced_pattern u [] cs ↔
  ∃ tag ws1 span ws2,
    u = fenced_block tag ws1 span ws2
    ∧ tagged tag ∧ blank ws1 ∧ brace_span span ∧ blank ws2
    ∧ cs = [(1%nat, span)].
Proof.
  unfold fenced_pattern, fenced_block. split.
  - intros (u1 & v1 & c1 & -> & [-> ->]%matches_lit_inv & H1)%matches_seq_inv.
    apply matches_seq_inv in H1 as (tag & v2 & c2 & -> & Htag & H2).
    apply matches_seq_inv in H2 as (ws1 & v3 & c3 & -> & [Hws1 ->]%matches_star_inv & H3).
    apply matches_seq_inv in H3 as (span & v4 & c4 & -> & Hg & H4).
    apply matches_seq_inv in H4 as (ws2 & v5 & c5 & -> & [Hws2 ->]%matches_star_inv
                                     & [-> ->]%matches_lit_inv).
    apply matches_group_inv in Hg as (c6 & Hg & ->).
    apply matches_seq_inv in Hg as (o & v6 & c7 & -> & [-> ->]%matches_lit_inv & Hg).
    apply matches_seq_inv in Hg as (body & v7 & c8 & -> & [_ ->]%matches_star_lazy_inv
                                    & [-> ->]%matches_lit_inv).
    assert (tagged tag ∧ c2 = []) as [Ht ->].
    { apply matches_opt_inv in Htag as [[-> ->]%matches_lit_inv|[-> ->]];
        split; (by right) || (by left) || done. }
    exists tag, ws1, (py "{" ++ body ++ py "}"), ws2.
    repeat split; [done|done|by exists body|done].
  - intros (tag & ws1 & span & ws2 & -> & Htag & Hws1 & [body ->] & Hws2 & ->).
    eapply matches_seq; [apply matches_lit|].
    eapply matches_seq.
    { destruct Htag as [-> | ->]; [apply matches_opt_none|].
      apply matches_opt_some, matches_lit. }
    eapply matches_seq; [by apply matches_star|].
    eapply matches_seq.
    { apply matches_group.
      eapply matches_seq; [apply matches_lit|].
      eapply matches_seq; [|apply matches_lit].
      apply matches_star_lazy. by apply Forall_forall. }
    eapply matches_seq; [by apply matches_star|].
    apply matches_lit.
Qed.

(** What the bare pattern matches: the brace-delimited spans. *)
Lemma brace_pattern_matches u cs :
  matches true brace_pattern u [] cs ↔ brace_span u ∧ cs = [].
Proof.
  unfold brace_pattern, brace_span. split.
  - intros (o & v & c1 & -> & [-> ->]%matches_lit_inv & H1)%matches_seq_inv.
    apply matches_seq_inv in H1 as (body & v2 & c2 & -> & [_ ->]%matches_star_inv
                                    & [-> ->]%matches_lit_inv).
    split; [by exists body|done].
  - intros [[body ->] ->].
    eapply matches_seq; [apply matches_lit|].
    eapply matches_seq; [|apply matches_lit].
    apply matches_star. by apply Forall_forall.
Qed.

(** *** The order in which the ways to match are tried *)

Lemma head_bind_cons {A B} (k : A → list B) x l :
  head ((x :: l) ≫= k)
  = match head (k x) with Some y => Some y | None => head (l ≫= k) end.
Proof. by rewrite bind_cons, head_app. Qed.

Lemma head_bind_app {A B} (k : A → list B) l1 l2 :
  head ((l1 ++ l2) ≫= k)
  = match head (l1 ≫= k) with Some y => Some y | None => head (l2 ≫= k) end.
Proof. by rewrite bind_app, head_app. Qed.

Lemma fmap_bind_comm {A B C} (f : B → C) (k : A → list B) l :
  f <$> (l ≫= k) = l ≫= (λ x, f <$> k x).
Proof.
  induction l as [|x l IH]; [done|].
  by rewrite !bind_cons, fmap_app, IH.
Qed.

(** Greedy repetition gives up a character only when everything tried
    with it has failed. *)
Lemma head_greedy_cons {B} p c t (k : str → list B) :
  p c = true →
  head (star_greedy p (c :: t) ≫= k)
  = match head (star_greedy p t ≫= k) with
    | Some y => Some y
    | None => head (k (c :: t))
    end.
Proof.
  intros Hc. cbn [star_greedy]. rewrite Hc, head_bind_app.
  by rewrite bind_singleton.
Qed.

Lemma head_greedy_stop {B} p c t (k : str → list B) :
  p c = false → head (star_greedy p (c :: t) ≫= k) = head (k (c :: t)).
Proof. intros Hc. cbn [star_greedy]. by rewrite Hc, bind_singleton. Qed.

(** Lazy repetition takes a character only when everything tried
    without it has failed. *)
Lemma head_lazy_cons {B} p c t (k : str → list B) :
  p c = true →
  head (star_lazy p (c :: t) ≫= k)
  = match head (k (c :: t)) with
    | Some y => Some y
    | None => head (star_lazy p t ≫= k)
    end.
Proof. intros Hc. cbn [star_lazy]. by rewrite Hc, head_bind_cons. Qed.

Lemma run_lit_app dotall lt t cs : run dotall (lit lt) (lt ++ t, cs) = [(t, cs)].
Proof.
  induction lt as [|c lt IH]; [done|].
  cbn. rewrite N.eqb_refl. cbn. by rewrite IH.
Qed.

Lemma run_lit_ne dotall c c' lt t cs :
  c ≠ c' → run dotall (lit (c' :: lt)) (c :: t, cs) = [].
Proof. intros Hne. cbn. by apply N.eqb_neq in Hne as ->. Qed.

(** Whitespace is skipped whole when what follows it is found. *)
Lemma head_greedy_blank {B} ws c t (k : str → list B) :
  blank ws → is_space c = false → is_Some (head (k (c :: t))) →
  head (star_greedy is_space (ws ++ c :: t) ≫= k) = head (k (c :: t)).
Proof.
  intros Hws Hc [y Hy]. induction Hws as [|b ws Hb _ IH]; cbn [app].
  - by rewrite head_greedy_stop.
  - by rewrite head_greedy_cons, IH, Hy.
Qed.

(** *** The bare pattern: from the first opening brace to the last
    closing brace *)

Lemma greedy_last_brace_none post cs :
  125 ∉ post →
  head (star_greedy (atom_matches true ADot) post
        ≫= λ t, run true (lit (py "}")) (t, cs)) = None.
Proof.
  induction post as [|c post IH]; intros Hpost; [done|].
  rewrite head_greedy_cons, IH by (done || set_solver).
  apply head_None, run_lit_ne. set_solver.
Qed.

Lemma greedy_last_brace body post cs :
  125 ∉ post →
  head (star_greedy (atom_matches true ADot) (body ++ py "}" ++ post)
        ≫= λ t, run true (lit (py "}")) (t, cs)) = Some (post, cs).
Proof.
  intros Hpost. induction body as [|c body IH]; cbn [app].
  - change (py "}" ++ post) with (125 :: post).
    rewrite head_greedy_cons, greedy_last_brace_none by done.
    reflexivity.
  - by rewrite head_greedy_cons, IH.
Qed.

Lemma match_here_brace body post :
  125 ∉ post →
  match_here true brace_pattern (py "{" ++ body ++ py "}" ++ post)
  = Some {| group0 := py "{" ++ body ++ py "}"; groups := [] |}.
Proof.
  intros Hpost. unfold match_here, brace_pattern.
  cbn [run]. rewrite run_lit_app, bind_singleton. cbn [run fst snd].
  rewrite list_fmap_bind.
  change (head _) with
    (head (star_greedy (atom_matches true ADot) (body ++ py "}" ++ post)
           ≫= λ t, run true (lit (py "}")) (t, []))).
  rewrite greedy_last_brace by done. cbn [fmap option_fmap option_map fst snd].
  do 2 f_equal.
  replace (py "{" ++ body ++ py "}" ++ post)
    with ((py "{" ++ body ++ py "}") ++ post)
    by (by rewrite <- !(assoc_L (++))).
  by rewrite length_app, Nat.add_sub, take_app_length.
Qed.

Lemma match_here_brace_ne c t :
  c ≠ 123 → match_here true brace_pattern (c :: t) = None.
Proof.
  intros Hc. unfold match_here, brace_pattern. cbn [run].
  by rewrite (run_lit_ne true c 123 []).
Qed.

Lemma search_here dotall r s m :
  match_here dotall r s = Some m → search dotall r s = Some m.
Proof. intros Hm. destruct s; cbn; by rewrite Hm. Qed.

(** The bare pattern finds the span from the first opening brace to the
    last closing brace. *)
Lemma search_brace_first_to_last s span :
  first_to_last_brace s span →
  search true brace_pattern s = Some {| group0 := span; groups := [] |}.
Proof.
  intros (pre & body & post & -> & -> & Hpre & Hpost).
  rewrite search_skip.
  - apply search_here. rewrite <- !(assoc_L (++)). by apply match_here_brace.
  - intros a [|c b] -> Hb; [done|]. cbn [app].
    apply match_here_brace_ne. intros ->. apply Hpre. set_solver.
Qed.

(** *** The fenced pattern *)

Lemma run_seq dotall r1 r2 st :
  run dotall (r1 ⋅ r2) st = run dotall r1 st ≫= run dotall r2.
Proof. done. Qed.

Lemma run_group dotall n r st :
  run dotall (Group n r) st
  = (λ st', (st'.1, (n, take (length st.1 - length st'.1) st.1) :: st'.2))
      <$> run dotall r st.
Proof. done. Qed.

Lemma run_star dotall a t cs :
  run dotall (Star a) (t, cs)
  = (λ s', (s', cs)) <$> star_greedy (atom_matches dotall a) t.
Proof. done. Qed.

Lemma run_star_lazy dotall a t cs :
  run dotall (StarLazy a) (t, cs)
  = (λ s', (s', cs)) <$> star_lazy (atom_matches dotall a) t.
Proof. done. Qed.

Lemma list_bind_assoc {A B C} (f : A → list B) (g : B → list C) l :
  (l ≫= f) ≫= g = l ≫= (λ x, f x ≫= g).
Proof.
  induction l as [|x l IH]; [done|].
  by rewrite !bind_cons, bind_app, IH.
Qed.

(** Lazy repetition stops at the first place where the rest is found. *)
Lemma head_lazy_first {B} p body c t (k : str → list B) y :
  Forall (λ b, p b = true) body →
  (∀ b1 b2, body = b1 ++ b2 → b2 ≠ [] → head (k (b2 ++ c :: t)) = None) →
  head (k (c :: t)) = Some y →
  head (star_lazy p (body ++ c :: t) ≫= k) = Some y.
Proof.
  intros Hbody Hnone Hy. induction Hbody as [|b body Hb _ IH]; cbn [app].
  - cbn [star_lazy]. by rewrite head_bind_cons, Hy.
  - rewrite head_lazy_cons by done.
    assert (head (k (b :: body ++ c :: t)) = None) as ->
      by (by apply (Hnone [] (b :: body))).
    apply IH. intros b1 b2 -> Hb2. by apply (Hnone (b :: b1) b2).
Qed.

Local Abbreviation closing := (Star ASpace ⋅ lit (py "```")).

(** The closing fence is found after any run of whitespace. *)
Lemma head_closing ws2 post cs :
  blank ws2 →
  head (run true closing (ws2 ++ fence ++ post, cs)) = Some (post, cs).
Proof.
  intros Hws. rewrite run_seq, run_star, list_fmap_bind.
  change (fence ++ post) with (96 :: 96 :: 96 :: post).
  by rewrite head_greedy_blank.
Qed.

Lemma closing_inv u cs :
  run true closing (u, cs) ≠ [] → ∃ ws r, u = ws ++ fence ++ r ∧ blank ws.
Proof.
  destruct (run true closing (u, cs)) as [|[s' cs'] l] eqn:Hrun; [done|].
  intros _. assert ((s', cs') ∈ run true closing (u, cs)) as Hin
    by (rewrite Hrun; set_solver).
  apply run_sound in Hin as (w & -> & Hw).
  apply matches_seq_inv in Hw as (ws & f & c1 & -> & [Hws _]%matches_star_inv
                                  & [-> _]%matches_lit_inv).
  exists ws, s'. by rewrite <- (assoc_L (++)).
Qed.

Lemma fence_chars c : c ∈ fence → c = 96.
Proof.
  change fence with [96; 96; 96]. intros Hin.
  repeat (apply elem_of_cons in Hin as [->|Hin]; [done|]).
  by apply elem_of_nil in Hin.
Qed.

Lemma blank_no_brace ws : blank ws → 125 ∉ ws.
Proof.
  intros Hws Hin. by eapply Forall_forall in Hws; [|exact Hin].
Qed.

(** A closing fence found right after a brace lies before the next
    brace. *)
Lemma fence_before_brace ws r b t :
  blank ws → ws ++ fence ++ r = b ++ 125 :: t →
  ∃ r', b = ws ++ fence ++ r'.
Proof.
  intros Hws Heq. rewrite (assoc_L (++)) in Heq.
  apply app_eq_inv in Heq as [(k & Hk & Ht)|(k & -> & Hr)].
  - destruct k as [|c k].
    + exists []. by rewrite app_nil_r in Hk |- *.
    + injection Ht as <- _. exfalso.
      assert (125 ∈ ws ++ fence) as [Hin|Hin]%elem_of_app
        by (rewrite Hk; set_solver).
      * by apply blank_no_brace in Hin.
      * by apply fence_chars in Hin.
  - exists k. by rewrite <- (assoc_L (++)).
Qed.

Local Abbreviation braces := (lit (py "{") ⋅ StarLazy ADot ⋅ lit (py "}")).

Lemma run_braces t cs :
  run true braces (py "{" ++ t, cs)
  = star_lazy (atom_matches true ADot) t
    ≫= λ x, run true (lit (py "}")) (x, cs).
Proof.
  rewrite run_seq, run_lit_app, bind_singleton, run_seq, run_star_lazy.
  by rewrite list_fmap_bind.
Qed.

(** The group ends at the first closing brace that whitespace and a fence
    follow; in a span without a fence inside, that is its last brace. *)
Lemma head_group_closing body ws2 post cs :
  blank ws2 →
  (∀ a b, py "{" ++ body ++ py "}" ≠ a ++ fence ++ b) →
  head (run true (Group 1 braces ⋅ closing)
          ((py "{" ++ body ++ py "}") ++ ws2 ++ fence ++ post, cs))
  = Some (post, (1%nat, py "{" ++ body ++ py "}") :: cs).
Proof.
  intros Hws Hspan. rewrite run_seq, run_group. cbn [fst snd].
  set (T := (py "{" ++ body ++ py "}") ++ ws2 ++ fence ++ post).
  assert (T = py "{" ++ body ++ py "}" ++ ws2 ++ fence ++ post) as HT
    by (unfold T; by rewrite <- !(assoc_L (++))).
  replace (run true braces (T, cs))
    with (run true braces (py "{" ++ body ++ py "}" ++ ws2 ++ fence ++ post, cs))
    by (by rewrite HT).
  rewrite run_braces, fmap_bind_comm, list_bind_assoc.
  change (py "}" ++ ws2 ++ fence ++ post) with (125 :: ws2 ++ fence ++ post).
  apply head_lazy_first.
  - by apply Forall_forall.
  - intros b1 [|c b2] -> Hb2; [done|]. cbn [app].
    destruct (decide (c = 125)) as [->|Hc].
    + change (run true (lit (py "}")) (125 :: ?t, cs)) with [(t, cs)].
      rewrite list_fmap_singleton, bind_singleton. cbn [fst snd].
      apply head_None.
      destruct (run true closing _) as [|st l] eqn:Hrun; [done|]. exfalso.
      assert (run true closing (b2 ++ 125 :: ws2 ++ fence ++ post,
                [(1%nat, take (length T - length (b2 ++ 125 :: ws2 ++ fence ++ post)) T)] ++ cs) ≠ [])
        as (ws & r & Hr & Hblank)%closing_inv by (cbn [app]; by rewrite Hrun).
      symmetry in Hr. apply fence_before_brace in Hr as [r' ->]; [|done].
      apply (Hspan (py "{" ++ b1 ++ 125 :: ws) (r' ++ py "}")).
      by repeat (rewrite <- (assoc_L (++)) || rewrite <- app_comm_cons).
    + by rewrite (run_lit_ne true c 125 []).
  - change (run true (lit (py "}")) (125 :: ?t, cs)) with [(t, cs)].
    rewrite list_fmap_singleton, bind_singleton. cbn [fst snd].
    rewrite head_closing by done. do 3 f_equal.
    unfold T. rewrite length_app, Nat.add_sub. by rewrite take_app_length.
Qed.

Lemma run_opt dotall r st : run dotall (Opt r) st = run dotall r st ++ [st].
Proof. done. Qed.

Local Abbreviation after_tag := (Star ASpace ⋅ Group 1 braces ⋅ closing).

Lemma head_after_tag ws1 body ws2 post :
  blank ws1 → blank ws2 →
  (∀ a b, py "{" ++ body ++ py "}" ≠ a ++ fence ++ b) →
  head (run true after_tag
          (ws1 ++ (py "{" ++ body ++ py "}") ++ ws2 ++ fence ++ post, []))
  = Some (post, [(1%nat, py "{" ++ body ++ py "}")]).
Proof.
  intros Hws1 Hws2 Hspan.
  pose proof (head_group_closing body ws2 post [] Hws2 Hspan) as Hg.
  rewrite run_seq, run_star, list_fmap_bind.
  change ((py "{" ++ body ++ py "}") ++ ws2 ++ fence ++ post)
    with (123 :: (body ++ py "}") ++ ws2 ++ fence ++ post) in *.
  rewrite head_greedy_blank; [exact Hg|done|done|].
  cbn [compose]. by rewrite Hg.
Qed.

(** A tag is only read as a tag: whitespace or a brace is never taken
    for the letter j. *)
Lemma run_tag_blank ws1 t cs :
  blank ws1 → run true (lit (py "json")) (ws1 ++ 123 :: t, cs) = [].
Proof.
  intros [|c ws Hc _]; cbn [app]; apply run_lit_ne; [done|].
  intros ->. done.
Qed.

Lemma head_fenced tag ws1 body ws2 post :
  tagged tag → blank ws1 → blank ws2 →
  (∀ a b, py "{" ++ body ++ py "}" ≠ a ++ fence ++ b) →
  head (run true fenced_pattern
          (fenced_block tag ws1 (py "{" ++ body ++ py "}") ws2 ++ post, []))
  = Some (post, [(1%nat, py "{" ++ body ++ py "}")]).
Proof.
  intros Htag Hws1 Hws2 Hspan.
  pose proof (head_after_tag ws1 body ws2 post Hws1 Hws2 Hspan) as Ht.
  unfold fenced_pattern, fenced_block, fence in *.
  rewrite <- !(assoc_L (++)) in Ht |- *.
  rewrite run_seq, run_lit_app, bind_singleton, run_seq, run_opt.
  destruct Htag as [-> | ->].
  - cbn [app]. rewrite <- !(assoc_L (++)).
    assert (run true (lit (py "json"))
              (ws1 ++ py "{" ++ body ++ py "}" ++ ws2 ++ py "```" ++ post, [])
            = []) as -> by (by apply (run_tag_blank ws1)).
    cbn [app]. by rewrite bind_singleton.
  - rewrite <- !(assoc_L (++)), run_lit_app. cbn [app].
    by rewrite head_bind_cons, Ht.
Qed.

Lemma match_here_fenced tag ws1 body ws2 post :
  tagged tag → blank ws1 → blank ws2 →
  (∀ a b, py "{" ++ body ++ py "}" ≠ a ++ fence ++ b) →
  match_here true fenced_pattern
    (fenced_block tag ws1 (py "{" ++ body ++ py "}") ws2 ++ post)
  = Some {| group0 := fenced_block tag ws1 (py "{" ++ body ++ py "}") ws2;
            groups := [(1%nat, py "{" ++ body ++ py "}")] |}.
Proof.
  intros Htag Hws1 Hws2 Hspan. unfold match_here.
  rewrite head_fenced by done. cbn [fmap option_fmap option_map fst snd].
  by rewrite length_app, Nat.add_sub, take_app_length.
Qed.

(** Nothing matches the fenced pattern where no fence starts. *)
Lemma match_here_fenced_None s :
  (∀ t, s ≠ fence ++ t) → match_here true fenced_pattern s = None.
Proof.
  intros Hs. destruct (match_here true fenced_pattern s) as [m|] eqn:Hm; [|done].
  apply match_here_Some in Hm as (post & -> & Hm).
  apply fenced_pattern_matches in Hm as (tag & ws1 & span & ws2 & Hu & _).
  destruct (Hs ((tag ++ ws1 ++ span ++ ws2 ++ fence) ++ post)).
  rewrite Hu. unfold fenced_block. by rewrite <- !(assoc_L (++)).
Qed.

(** The fenced pattern finds the block whose opening fence is the first
    fence of the text, and captures its span when no fence occurs inside
    the span. *)
Lemma search_fenced_first s pre tag ws1 span ws2 post :
  fenced_at s pre tag ws1 span ws2 post →
  (∀ i, occurs_at fence s i → (length pre ≤ i)%nat) →
  (∀ i, ¬ occurs_at fence span i) →
  search true fenced_pattern s
  = Some {| group0 := fenced_block tag ws1 span ws2;
            groups := [(1%nat, span)] |}.
Proof.
  intros (-> & Htag & Hws1 & [body ->] & Hws2) Hfirst Hinside.
  rewrite search_skip.
  - apply search_here, match_here_fenced; [done..|].
    intros a b Hab. apply (Hinside (length a)). by exists a, b.
  - intros a b -> Hb. apply match_here_fenced_None. intros t Ht.
    assert (length (a ++ b) ≤ length a)%nat as Hlen.
    { apply Hfirst. exists a, t. split; [|done].
      by rewrite <- Ht, <- (assoc_L (++)). }
    rewrite length_app in Hlen. destruct b; [done|]. cbn in Hlen. lia.
Qed.

End Patterns.

(** ** The JSON recoverer *)

Section Recoverer.
Context `{Library}.
Implicit Types (s span : str) (self : OllamaReceiptOCR) (w : World).

Lemma has_fenced_block_search s :
  has_fenced_block s ↔ is_Some (search true fenced_pattern s).
Proof.
  split.
  - intros (pre & tag & ws1 & span & ws2 & post & -> & Hfenced).
    destruct Hfenced as (Htag & Hws1 & Hspan & Hws2).
    eapply search_is_Some, fenced_pattern_matches.
    by exists tag, ws1, span, ws2.
  - intros [m (pre & post & -> & Hm)%search_Some].
    apply fenced_pattern_matches in Hm
      as (tag & ws1 & span & ws2 & -> & Htag & Hws1 & Hspan & Hws2 & _).
    by exists pre, tag, ws1, span, ws2, post.
Qed.

Lemma has_brace_pair_search s :
  has_brace_pair s ↔ is_Some (search true brace_pattern s).
Proof.
  split.
  - intros (pre & body & post & ->).
    replace (pre ++ py "{" ++ body ++ py "}" ++ post)
      with (pre ++ (py "{" ++ body ++ py "}") ++ post)
      by (by rewrite <- !(assoc_L (++))).
    eapply search_is_Some, brace_pattern_matches. split; [by exists body|done].
  - intros [m (pre & post & -> & Hm)%search_Some].
    apply brace_pattern_matches in Hm as [[body ->] _].
    exists pre, body, post. by rewrite <- !(assoc_L (++)).
Qed.

Lemma fenced_block_has_brace_pair s : has_fenced_block s → has_brace_pair s.
Proof.
  intros (pre & tag & ws1 & span & ws2 & post & -> & _ & _ & [body ->] & _).
  exists (pre ++ fence ++ tag ++ ws1), body, (ws2 ++ fence ++ post).
  unfold fenced_block. by rewrite <- !(assoc_L (++)).
Qed.

(** The first tier: what the fenced pattern finds is the span of a fenced
    block of the text. *)
Lemma find_json_str_fenced s :
  has_fenced_block s →
  ∃ pre tag ws1 span ws2 post,
    fenced_at s pre tag ws1 span ws2 post
    ∧ find_json_str s = inr (Some span).
Proof.
  intros [m Hm]%has_fenced_block_search. unfold find_json_str. rewrite Hm.
  apply search_Some in Hm as (pre & post & -> & Hm).
  apply fenced_pattern_matches in Hm
    as (tag & ws1 & span & ws2 & Hg & Htag & Hws1 & Hspan & Hws2 & Hcs).
  exists pre, tag, ws1, span, ws2, post. split.
  - by rewrite Hg.
  - unfold group. by rewrite Hcs.
Qed.

(** The second tier is used only when the first finds nothing. *)
Lemma find_json_str_brace s span :
  ¬ has_fenced_block s → first_to_last_brace s span →
  find_json_str s = inr (Some span).
Proof.
  intros Hno Hspan. unfold find_json_str.
  destruct (search true fenced_pattern s) as [m|] eqn:Hm.
  { destruct Hno. apply has_fenced_block_search. by exists m. }
  by rewrite (search_brace_first_to_last s span).
Qed.

Lemma find_json_str_first_fence s pre tag ws1 span ws2 post :
  fenced_at s pre tag ws1 span ws2 post →
  (∀ i, occurs_at fence s i → (length pre ≤ i)%nat) →
  (∀ i, ¬ occurs_at fence span i) →
  find_json_str s = inr (Some span).
Proof.
  intros Hat Hfirst Hinside. unfold find_json_str.
  by rewrite (search_fenced_first s pre tag ws1 span ws2 post).
Qed.

Lemma find_json_str_located s :
  has_brace_pair s → ∃ span, find_json_str s = inr (Some span) ∧ brace_span span.
Proof.
  intros Hpair. destruct (search true fenced_pattern s) as [m|] eqn:Hm.
  - destruct (find_json_str_fenced s)
      as (pre & tag & ws1 & span & ws2 & post & Hat & Hfind).
    { apply has_fenced_block_search. by exists m. }
    exists span. split; [done|]. apply Hat.
  - apply has_brace_pair_search in Hpair as [m' Hm'].
    unfold find_json_str. rewrite Hm, Hm'. exists (group0 m'). split; [done|].
    apply search_Some in Hm' as (pre & post & _ & Hmatch).
    by apply brace_pattern_matches in Hmatch as [? _].
Qed.

Lemma find_json_str_none s :
  ¬ has_brace_pair s →
  find_json_str s
  = inl (ValueError (py "Não foi possível encontrar JSON na resposta")).
Proof.
  intros Hno. unfold find_json_str.
  destruct (search true fenced_pattern s) as [m|] eqn:Hm.
  { destruct Hno. apply fenced_block_has_brace_pair, has_fenced_block_search.
    by exists m. }
  destruct (search true brace_pattern s) as [m|] eqn:Hm'; [|done].
  destruct Hno. apply has_brace_pair_search. by exists m.
Qed.

(** What one call of [extract_json_from_response] does, by cases. *)
Lemma extract_json_from_response_run self s w :
  extract_json_from_response self s w
  = match find_json_str s with
    | inl e => (inl e, printed [py "Extraindo JSON da resposta..."] w)
    | inr json_str =>
        match loads json_str with
        | inr d =>
            (inr d, printed [py "Extraindo JSON da resposta...";
                             py "JSON parseado com sucesso"] w)
        | inl (JSONDecodeError msg) =>
            (inl (JSONDecodeError msg),
             printed [py "Extraindo JSON da resposta...";
                      py "Erro ao parsear JSON: " ++ msg;
                      py "JSON string: " ++ excerpt json_str ++ py "..."] w)
        | inl e => (inl e, printed [py "Extraindo JSON da resposta..."] w)
        end
    end.
Proof.
  unfold extract_json_from_response, mbind, M_bind, print, raise, mret, M_ret.
  destruct (find_json_str s) as [e|json_str]; [done|].
  destruct (loads json_str) as [[]|d]; try done.
  - unfold printed. cbn [files stdout requests].
    by rewrite <- !(assoc_L (++)).
  - unfold printed. cbn [files stdout requests].
    by rewrite <- !(assoc_L (++)).
Qed.

Lemma startswith_spec sub s : startswith sub s = true ↔ ∃ t, s = sub ++ t.
Proof.
  revert s. induction sub as [|c sub IH]; intros s; cbn.
  - split; [by exists s|done].
  - destruct s as [|d s]; [split; [done|by intros [? [=]]]|].
    rewrite andb_true_iff, N.eqb_eq, IH. split.
    + intros [-> [t ->]]. by exists t.
    + intros [t [= -> ->]]. split; [done|by exists t].
Qed.

Lemma find_None sub s i : find sub s = None → ¬ occurs_at sub s i.
Proof.
  revert i. induction s as [|d s IH]; intros i; cbn;
    destruct (startswith sub _) eqn:Hp; try done.
  - intros _ ([|??] & b & Hs & _); [|done].
    assert (startswith sub [] = true); [|congruence].
    apply startswith_spec. by exists b.
  - destruct (find sub s) eqn:Hf; [done|]. intros _ (a & b & Hs & <-).
    destruct a as [|c a].
    + assert (startswith sub (d :: s) = true); [|congruence].
      apply startswith_spec. by exists b.
    + injection Hs as -> ->. apply (IH (length a)); [done|]. by exists a, b.
Qed.

Lemma find_Some sub s n i :
  find sub s = Some n → occurs_at sub s i → (n ≤ i)%nat.
Proof.
  revert n i. induction s as [|d s IH]; intros n i; cbn;
    destruct (startswith sub _) eqn:Hp; try done.
  - intros [= <-] _. lia.
  - intros [= <-] _. lia.
  - destruct (find sub s) as [m|] eqn:Hf; [|done].
    intros [= <-] (a & b & Hs & <-). destruct a as [|c a].
    + assert (startswith sub (d :: s) = true); [|congruence].
      apply startswith_spec. by exists b.
    + injection Hs as -> ->. cbn. apply le_n_S, (IH m); [done|].
      by exists a, b.
Qed.

(** C5: when neither pattern is found, and so whenever the text holds no
    opening brace with a closing brace after it, the recoverer raises the
    [ValueError] that stands for NoJsonFound and returns no mapping. *)
Theorem C5_no_json_found self s w :
  (¬ has_fenced_block s → ¬ has_brace_pair s →
     ∃ msg, extract_json_from_response self s w
            = (inl (ValueError msg),
               printed [py "Extraindo JSON da resposta..."] w))
  ∧ (¬ has_brace_pair s →
       ∃ msg, extract_json_from_response self s w
              = (inl (ValueError msg),
                 printed [py "Extraindo JSON da resposta..."] w)).
Proof.
  assert (¬ has_brace_pair s →
          ∃ msg, extract_json_from_response self s w
                 = (inl (ValueError msg),
                    printed [py "Extraindo JSON da resposta..."] w)) as Hraise.
  { intros Hno. eexists.
    by rewrite extract_json_from_response_run, find_json_str_none. }
  split; [intros _|]; exact Hraise.
Qed.

(** C6: when a brace-delimited candidate is located and [json.loads]
    rejects it, the recoverer raises the [JSONDecodeError] and the report
    it prints holds the first 500 characters of the candidate. *)
Theorem C6_parse_error_is_reported self s w :
  has_brace_pair s →
  ∃ candidate,
    find_json_str s = inr (Some candidate)
    ∧ brace_span candidate
    ∧ ∀ msg, json_loads candidate = inl msg →
        extract_json_from_response self s w
        = (inl (JSONDecodeError msg),
           printed [py "Extraindo JSON da resposta...";
                    py "Erro ao parsear JSON: " ++ msg;
                    py "JSON string: " ++ take 500 candidate ++ py "..."] w).
Proof.
  intros (candidate & Hfind & Hspan)%find_json_str_located.
  exists candidate. split; [done|]. split; [done|]. intros msg Hmsg.
  rewrite extract_json_from_response_run, Hfind. unfold loads.
  by rewrite Hmsg.
Qed.

(** C10: the recoverer and the record builder are functions of their
    input: two calls on the same input give the same result, mapping or
    error, and print the same lines, whatever the object and the world
    they are called in. *)
Theorem C10_recoverer_and_builder_are_deterministic
    self1 self2 w1 w2 s (receipt_dict : json) :
  (∃ outcome lines,
     extract_json_from_response self1 s w1 = (outcome, printed lines w1)
     ∧ extract_json_from_response self2 s w2 = (outcome, printed lines w2))
  ∧ (∃ outcome lines,
       create_dataframe self1 receipt_dict w1 = (outcome, printed lines w1)
       ∧ create_dataframe self2 receipt_dict w2 = (outcome, printed lines w2)).
Proof.
  split.
  - rewrite !extract_json_from_response_run.
    destruct (find_json_str s) as [e|json_str]; [by eexists _, _|].
    destruct (loads json_str) as [[]|d]; by eexists _, _.
  - unfold create_dataframe, mbind, M_bind, print, raise, mret, M_ret.
    destruct (record_of receipt_dict) as [e|record].
    + by exists (inl e), [py "Criando DataFrame..."].
    + eexists (inr _), [_; _]. unfold printed. cbn [files stdout requests].
      by rewrite <- !(assoc_L (++)).
Qed.

End Recoverer.

(** The claim as written fails on [two_blocks]: the text holds a JSON object
    inside a fenced block with prose outside it, and the candidate is not
    that object but a span that runs across both blocks and the prose
    between them, which is not JSON. *)
Lemma C3_counterexample :
  fenced_at two_blocks first_block (py "json") nl second_object nl []
  ∧ Stub.parse second_object = inr (JDict {[ py "a" := JInt 1 ]})
  ∧ find_json_str two_blocks = inr (Some across_blocks)
  ∧ across_blocks ≠ second_object
  ∧ Stub.parse across_blocks = inl (py "invalid JSON").
Proof.
  split.
  { split; [reflexivity|]. split; [by right|].
    split; [by repeat constructor|].
    split; [|by repeat constructor]. by exists (pyq "'a': 1"). }
  split; [vm_compute; reflexivity|].
  split; [vm_compute; reflexivity|].
  split; [intros Heq; vm_compute in Heq; discriminate|].
  vm_compute. reflexivity.
Qed.

Lemma C5_witness :
  ∃ msg,
    extract_json_from_response (H := Stub.library) (init default_host)
      no_braces Stub.world
    = (inl (ValueError msg),
       printed [py "Extraindo JSON da resposta..."] Stub.world).
Proof.
  apply (proj2 (C5_no_json_found (init default_host) no_braces Stub.world)).
  intros [m Hm]%has_brace_pair_search. vm_compute in Hm. discriminate.
Defined.

Lemma trailing_comma_has_brace_pair : has_brace_pair trailing_comma.
Proof.
  by exists (py "Sure: "), (pyq "'Matricula': '12345',"), (py " hope it helps").
Defined.

Lemma C6_witness :
  ∃ candidate,
    find_json_str trailing_comma = inr (Some candidate)
    ∧ brace_span candidate
    ∧ ∀ msg, Stub.parse candidate = inl msg →
        extract_json_from_response (H := Stub.library) (init default_host)
          trailing_comma Stub.world
        = (inl (JSONDecodeError msg),
           printed [py "Extraindo JSON da resposta...";
                    py "Erro ao parsear JSON: " ++ msg;
                    py "JSON string: " ++ take 500 candidate ++ py "..."]
             Stub.world).
Proof.
  apply (C6_parse_error_is_reported (H := Stub.library) (init default_host)
           trailing_comma Stub.world).
  exact trailing_comma_has_brace_pair.
Defined.

Example trailing_comma_run :
  (extract_json_from_response (H := Stub.library) (init default_host)
     trailing_comma Stub.world).1
  = inl (JSONDecodeError (py "invalid JSON")).
Proof. vm_compute. reflexivity. Qed.

(** ** The orchestrator *)

Section Pipeline.
Context `{Library}.
Implicit Types (self : OllamaReceiptOCR) (w : World) (e : exn).

(** [process_receipt], state by state. *)
Lemma process_receipt_run self image_path output_csv w :
  process_receipt self image_path output_csv w
  = if bool_decide (is_Some (files w !! image_path)) then
      match extract_image_data self image_path w with
      | (inl e, w1) => (inl e, w1)
      | (inr extracted_text, w1) =>
          match structure_to_json self extracted_text w1 with
          | (inl e, w2) => (inl e, w2)
          | (inr json_response, w2) =>
              match extract_json_from_response self json_response w2 with
              | (inl e, w3) => (inl e, w3)
              | (inr receipt_dict, w3) =>
                  match create_dataframe self receipt_dict w3 with
                  | (inl e, w4) => (inl e, w4)
                  | (inr df, w4) =>
                      (inr (df, receipt_dict),
                       if truthy output_csv then
                         printed [py "DataFrame salvo em: "
                                  ++ default [] output_csv]
                           (written (default [] output_csv) (to_csv df) w4)
                       else w4)
                  end
              end
          end
      end
    else
      (inl (FileNotFoundError (py "Arquivo não encontrado: " ++ image_path)),
       w).
Proof.
  unfold process_receipt, mbind, M_bind, path_exists.
  destruct (bool_decide _); cbn [negb]; [|done].
  destruct (extract_image_data _ _ _) as [[e|extracted_text] w1]; [done|].
  destruct (structure_to_json _ _ _) as [[e|json_response] w2]; [done|].
  destruct (extract_json_from_response _ _ _) as [[e|receipt_dict] w3]; [done|].
  destruct (create_dataframe _ _ _) as [[e|df] w4]; [done|].
  by destruct (truthy output_csv).
Qed.

Lemma extract_image_data_effect self image_path w r w1 :
  extract_image_data self image_path w = (r, w1) →
  files w1 = files w
  ∧ ∃ new, requests w1 = requests w ++ new
           ∧ (req_model <$> new) `prefix_of` [vision_model self]
           ∧ (∀ t, r = inr t → req_model <$> new = [vision_model self]).
Proof.
  unfold extract_image_data, try_except, mbind, M_bind, print, read_bytes,
    chat, raise, mret, M_ret. cbn [files stdout requests].
  destruct (files w !! image_path) as [bytes|].
  - destruct (client_chat _ _) as [msg|content]; intros [= <- <-];
      (split; [done|]); eexists [_]; (split; [done|]); by split.
  - intros [= <- <-]. split; [done|]. exists [].
    split; [by rewrite app_nil_r|]. split; [by exists [vision_model self]|done].
Qed.

Lemma structure_to_json_effect self text w r w1 :
  structure_to_json self text w = (r, w1) →
  files w1 = files w
  ∧ ∃ rq, requests w1 = requests w ++ [rq] ∧ req_model rq = text_model self.
Proof.
  unfold structure_to_json, try_except, mbind, M_bind, print, chat, raise,
    mret, M_ret. cbn [files stdout requests].
  destruct (client_chat _ _) as [msg|content]; intros [= <- <-];
    (split; [done|]); by eexists.
Qed.

Lemma extract_json_from_response_effect self s w r w1 :
  extract_json_from_response self s w = (r, w1) →
  files w1 = files w ∧ requests w1 = requests w.
Proof.
  rewrite extract_json_from_response_run.
  destruct (find_json_str s) as [e|json_str]; [by intros [= <- <-]|].
  destruct (loads json_str) as [[]|d]; by intros [= <- <-].
Qed.

Lemma create_dataframe_effect self v w r w1 :
  create_dataframe self v w = (r, w1) →
  files w1 = files w ∧ requests w1 = requests w.
Proof.
  unfold create_dataframe, mbind, M_bind, print, raise, mret, M_ret.
  destruct (record_of v) as [e|record]; by intros [= <- <-].
Qed.

(** C4: for an image path that does not exist, [process_receipt] raises
    [FileNotFoundError] and leaves the world as it was: no call to the
    server was made, and nothing was printed or written. *)
Theorem C4_missing_image_fails_before_any_call self image_path output_csv w :
  files w !! image_path = None →
  process_receipt self image_path output_csv w
  = (inl (FileNotFoundError (py "Arquivo não encontrado: " ++ image_path)), w)
  ∧ requests (process_receipt self image_path output_csv w).2 = requests w.
Proof.
  intros Hnone. rewrite process_receipt_run.
  rewrite bool_decide_eq_false_2; [done|]. rewrite Hnone. by intros [? [=]].
Qed.

(** C7: when one of the five states fails, the run ends there with the
    error of that state and no row; no file was written; and the server
    was called at most once by the extractor and then at most once by
    the structurer, never again. *)
Theorem C7_failure_is_terminal self image_path output_csv w st e w' :
  fails_at self image_path w st e w' →
  process_receipt self image_path output_csv w = (inl e, w')
  ∧ files w' = files w
  ∧ ∃ new, requests w' = requests w ++ new
           ∧ (req_model <$> new) `prefix_of`
               [vision_model self; text_model self].
Proof.
  intros Hfail. rewrite process_receipt_run.
  destruct Hfail as [Hnone|e w1 Hsome He|t w1 e w2 Hsome He Hs
                    |t w1 j w2 e w3 Hsome He Hs Hr
                    |t w1 j w2 d w3 e w4 Hsome He Hs Hr Hb].
  - rewrite bool_decide_eq_false_2 by (rewrite Hnone; by intros [? [=]]).
    split; [done|]. split; [done|]. exists []. split; [by rewrite app_nil_r|].
    by eexists.
  - rewrite bool_decide_eq_true_2, He by done. split; [done|].
    apply extract_image_data_effect in He as (Hf & new & Hq & [k Hk] & _).
    split; [done|]. exists new. split; [done|].
    exists (k ++ [text_model self]). rewrite (assoc_L (++)), <- Hk. done.
  - rewrite bool_decide_eq_true_2, He, Hs by done. split; [done|].
    apply extract_image_data_effect in He as (Hf & new & Hq & _ & Hv).
    apply structure_to_json_effect in Hs as (Hf' & rq & Hq' & Hm).
    split; [congruence|]. exists (new ++ [rq]).
    split; [by rewrite Hq', Hq, (assoc_L (++))|].
    rewrite fmap_app, (Hv t eq_refl). cbn. rewrite Hm. done.
  - rewrite bool_decide_eq_true_2, He, Hs, Hr by done. split; [done|].
    apply extract_image_data_effect in He as (Hf & new & Hq & _ & Hv).
    apply structure_to_json_effect in Hs as (Hf' & rq & Hq' & Hm).
    apply extract_json_from_response_effect in Hr as [Hf'' Hq''].
    split; [congruence|]. exists (new ++ [rq]).
    split; [by rewrite Hq'', Hq', Hq, (assoc_L (++))|].
    rewrite fmap_app, (Hv t eq_refl). cbn. rewrite Hm. done.
  - rewrite bool_decide_eq_true_2, He, Hs, Hr, Hb by done. split; [done|].
    apply extract_image_data_effect in He as (Hf & new & Hq & _ & Hv).
    apply structure_to_json_effect in Hs as (Hf' & rq & Hq' & Hm).
    apply extract_json_from_response_effect in Hr as [Hf'' Hq''].
    apply create_dataframe_effect in Hb as [Hf3 Hq3].
    split; [congruence|]. exists (new ++ [rq]).
    split; [by rewrite Hq3, Hq'', Hq', Hq, (assoc_L (++))|].
    rewrite fmap_app, (Hv t eq_refl). cbn. rewrite Hm. done.
Qed.

End Pipeline.

Lemma C4_witness :
  process_receipt (H := Stub.library) (init default_host) (py "missing.png")
    (Some (py "out.csv")) Stub.world
  = (inl (FileNotFoundError (py "Arquivo não encontrado: missing.png")),
     Stub.world).
Proof.
  apply (C4_missing_image_fails_before_any_call (H := Stub.library)
           (init default_host) (py "missing.png") (Some (py "out.csv"))
           Stub.world).
  vm_compute. reflexivity.
Defined.

Lemma C7_witness :
  ∃ w',
    process_receipt (H := Stub.library_down) (init default_host)
      (py "certidao.png") (Some (py "out.csv")) Stub.world
    = (inl (ClientError (py "Failed to connect to Ollama")), w')
    ∧ files w' = files Stub.world.
Proof.
  eexists.
  edestruct (C7_failure_is_terminal (H := Stub.library_down)
               (init default_host) (py "certidao.png") (Some (py "out.csv"))
               Stub.world Extract) as (Hrun & Hfiles & _).
  - apply fails_extract; [vm_compute; eauto|vm_compute; reflexivity].
  - split; [exact Hrun|exact Hfiles].
Defined.

(** A server that wraps invalid JSON in prose: the run fails in the
    recovery state, after both calls, and the requested file is not
    written. *)
Example sloppy_run :
  ∃ w',
    process_receipt (H := Stub.library_sloppy) (init default_host)
      (py "certidao.png") (Some (py "out.csv")) Stub.world
    = (inl (JSONDecodeError (py "invalid JSON")), w')
    ∧ files w' = files Stub.world
    ∧ length (requests w') = 2%nat.
Proof. eexists. split; [vm_compute; reflexivity|]. split; reflexivity. Qed.

(** The end-to-end scenario of the specification: one row with the two
    fields the server returned, the other eleven null, written to the
    requested file. *)
Example scenario_run :
  ∃ d w',
    process_receipt (H := Stub.library) (init default_host)
      (py "certidao.png") (Some (py "out.csv")) Stub.world
    = (inr ({| columns := column_of <$> known_keys;
               rows := [[JStr (py "12345"); JStr (py "Jane Doe"); JNull; JNull;
                         JNull; JNull; JNull; JNull; JNull; JNull; JNull;
                         JNull; JNull]] |}, JDict d), w')
    ∧ length (requests w') = 2%nat
    ∧ is_Some (files w' !! py "out.csv").
Proof.
  eexists _, _. split; [vm_compute; reflexivity|].
  split; [reflexivity|]. vm_compute. eauto.
Qed.

(** * Further properties *)

(** ** The two calls to the server *)

Section Calls.
Context `{Library}.
Implicit Types (self : OllamaReceiptOCR) (w : World) (e : exn).

(** What one call of [extract_image_data] does, by cases. *)
Lemma extract_image_data_run self image_path w :
  extract_image_data self image_path w
  = match files w !! image_path with
    | None =>
        let e := FileNotFoundError
                   (py "[Errno 2] No such file or directory: '"
                    ++ image_path ++ py "'") in
        (inl e,
         printed [py "Extraindo dados da imagem: " ++ image_path;
                  py "Erro ao extrair dados da imagem: " ++ str_exn e] w)
    | Some bytes =>
        let image_data := b64encode bytes in
        let converted :=
          py "Imagem convertida para base64 ("
          ++ str_of_nat (length image_data) ++ py " bytes)" in
        match client_chat (requests w) (vision_request self image_data) with
        | inr response =>
            (inr (strip response),
             printed [py "Extraindo dados da imagem: " ++ image_path;
                      converted;
                      py "Dados extraídos com sucesso ("
                      ++ str_of_nat (length (strip response))
                      ++ py " caracteres)"]
               (called [vision_request self image_data] w))
        | inl msg =>
            (inl (ClientError msg),
             printed [py "Extraindo dados da imagem: " ++ image_path;
                      converted;
                      py "Erro ao extrair dados da imagem: " ++ msg]
               (called [vision_request self image_data] w))
        end
    end.
Proof.
  unfold extract_image_data, try_except, mbind, M_bind, print, read_bytes,
    chat, raise, mret, M_ret, printed, called, vision_request.
  cbn [files stdout requests].
  destruct (files w !! image_path) as [bytes|].
  - destruct (client_chat _ _) as [msg|response];
      cbv zeta; cbn [str_exn files stdout requests];
      by rewrite <- !(assoc_L (++)).
  - cbv zeta. cbn [str_exn files stdout requests].
    by rewrite <- !(assoc_L (++)).
Qed.

(** What one call of [structure_to_json] does, by cases. *)
Lemma structure_to_json_run self text w :
  structure_to_json self text w
  = match client_chat (requests w) (text_request self text) with
    | inr response =>
        (inr (strip response),
         printed [py "Estruturando dados em JSON...";
                  py "JSON estruturado com sucesso"]
           (called [text_request self text] w))
    | inl msg =>
        (inl (ClientError msg),
         printed [py "Estruturando dados em JSON...";
                  py "Erro ao estruturar JSON: " ++ msg]
           (called [text_request self text] w))
    end.
Proof.
  unfold structure_to_json, try_except, mbind, M_bind, print, chat, raise,
    mret, M_ret, printed, called, text_request.
  cbn [files stdout requests].
  destruct (client_chat _ _) as [msg|response];
    cbn [str_exn files stdout requests]; by rewrite <- !(assoc_L (++)).
Qed.

End Calls.

(** ** Trimming *)

Section Trimming.
Implicit Types (s t ws : str).

Lemma lstrip_blank ws t : blank ws → lstrip (ws ++ t) = lstrip t.
Proof. induction 1 as [|c ws Hc _ IH]; [done|]. cbn. by rewrite Hc. Qed.

Lemma lstrip_nonspace c t : is_space c = false → lstrip (c :: t) = c :: t.
Proof. intros Hc. cbn. by rewrite Hc. Qed.

Lemma lstrip_spec s :
  ∃ ws, s = ws ++ lstrip s ∧ blank ws
        ∧ ∀ c, head (lstrip s) = Some c → is_space c = false.
Proof.
  induction s as [|a s (ws & Hs & Hws & Hhead)].
  - exists []. split; [done|]. split; [constructor|done].
  - cbn [lstrip]. destruct (is_space a) eqn:Ha.
    + exists (a :: ws). split; [by rewrite Hs at 1|].
      split; [by constructor|done].
    + exists []. split; [done|]. split; [constructor|]. by intros c [= <-].
Qed.

Lemma lstrip_snoc_nonspace s c :
  is_space c = false → lstrip (s ++ [c]) = lstrip s ++ [c].
Proof.
  intros Hc. induction s as [|a s IH]; cbn; [by rewrite Hc|].
  by destruct (is_space a).
Qed.

Lemma rstrip_blank t ws : blank ws → rstrip (t ++ ws) = rstrip t.
Proof.
  intros Hws. unfold rstrip. rewrite rev_app_distr, lstrip_blank; [done|].
  by apply Forall_rev.
Qed.

Lemma rstrip_cons_nonspace c t :
  is_space c = false → rstrip (c :: t) = c :: rstrip t.
Proof.
  intros Hc. unfold rstrip. cbn [rev].
  by rewrite lstrip_snoc_nonspace, rev_unit.
Qed.

Lemma last_rev {A} (l : list A) : last (rev l) = head l.
Proof. destruct l as [|a l]; [done|]. cbn [rev]. by rewrite last_snoc. Qed.

Lemma rstrip_spec s :
  ∃ ws, s = rstrip s ++ ws ∧ blank ws
        ∧ ∀ c, last (rstrip s) = Some c → is_space c = false.
Proof.
  destruct (lstrip_spec (rev s)) as (ws & Hs & Hws & Hhead).
  exists (rev ws). unfold rstrip. split; [|split].
  - by rewrite <- rev_app_distr, <- Hs, rev_involutive.
  - by apply Forall_rev.
  - intros c Hc. apply Hhead. by rewrite <- Hc, last_rev.
Qed.

(** [strip] takes whitespace, and only whitespace, from both ends. *)
Lemma strip_spec s :
  ∃ ws1 ws2, s = ws1 ++ strip s ++ ws2 ∧ blank ws1 ∧ blank ws2
             ∧ trimmed (strip s).
Proof.
  destruct (lstrip_spec s) as (ws1 & Hs & Hws1 & Hhead).
  destruct (rstrip_spec (lstrip s)) as (ws2 & Hl & Hws2 & Hlast).
  exists ws1, ws2. unfold strip. split; [by rewrite <- Hl|].
  split; [done|]. split; [done|]. split; [|done].
  destruct (lstrip s) as [|a t]; [done|].
  specialize (Hhead a eq_refl). rewrite rstrip_cons_nonspace by done.
  by intros c [= <-].
Qed.

(** What lies between two runs of whitespace and is trimmed is what
    [strip] returns. *)
Lemma strip_unique ws1 t ws2 :
  blank ws1 → blank ws2 → trimmed t → strip (ws1 ++ t ++ ws2) = t.
Proof.
  intros Hws1 Hws2 [Hhead Hlast]. unfold strip. rewrite lstrip_blank by done.
  destruct t as [|a t].
  - cbn [app]. destruct (lstrip_spec ws2) as (ws & Hs & _ & Hh).
    destruct (lstrip ws2) as [|c l]; [done|].
    specialize (Hh c eq_refl). assert (c ∈ ws2) as Hin
      by (rewrite Hs; set_solver).
    eapply Forall_forall in Hws2; [|exact Hin]. congruence.
  - rewrite <- app_comm_cons, lstrip_nonspace by (by apply Hhead).
    rewrite app_comm_cons, rstrip_blank by done.
    unfold rstrip.
    destruct (lstrip_spec (rev (a :: t))) as (ws & Hs & Hws & _).
    destruct ws as [|c ws].
    + cbn [app] in Hs. by rewrite <- Hs, rev_involutive.
    + assert (last (a :: t) = Some c) as Hc.
      { by rewrite <- (rev_involutive (a :: t)), Hs, last_rev. }
      apply Hlast in Hc. by inversion Hws; congruence.
Qed.

End Trimming.

(** ** The two tiers as scans *)

Section Scans.
Implicit Types (s t u body inner : str) (cs : captures).

Local Abbreviation closing := (Star ASpace ⋅ lit (py "```")).
Local Abbreviation braces := (lit (py "{") ⋅ StarLazy ADot ⋅ lit (py "}")).
Local Abbreviation after_tag := (Star ASpace ⋅ Group 1 braces ⋅ closing).

(** A literal matches at the front of the text or not at all. *)
Lemma run_lit_startswith dotall lt t cs :
  run dotall (lit lt) (t, cs)
  = if startswith lt t then [(drop (length lt) t, cs)] else [].
Proof.
  revert t. induction lt as [|c lt IH]; intros t; [done|].
  cbn [lit]. rewrite run_seq. destruct t as [|d t]; [done|].
  cbn [run fst snd atom_matches startswith length drop].
  rewrite (N.eqb_sym d c). destruct (c =? d); [|done].
  by rewrite bind_singleton, IH.
Qed.

(** Greedy whitespace before something that whitespace cannot start:
    all of it is skipped. *)
Lemma head_greedy_lstrip {B} (k : str → list B) u :
  (∀ c x, is_space c = true → k (c :: x) = []) →
  head (star_greedy is_space u ≫= k) = head (k (lstrip u)).
Proof.
  intros Hk. induction u as [|c u IH];
    [cbn [star_greedy lstrip]; by rewrite bind_singleton|].
  cbn [lstrip]. destruct (is_space c) eqn:Hc.
  - rewrite head_greedy_cons, IH, Hk by done. by destruct (head (k (lstrip u))).
  - by rewrite head_greedy_stop.
Qed.

Lemma head_closing_scan u cs :
  head (run true closing (u, cs))
  = if closes u then Some (drop 3 (lstrip u), cs) else None.
Proof.
  rewrite run_seq, run_star, list_fmap_bind.
  rewrite head_greedy_lstrip.
  - cbn [compose]. rewrite run_lit_startswith. unfold closes.
    change (startswith (py "```")) with (startswith fence).
    by destruct (startswith fence _).
  - intros c x Hc. cbn [compose]. rewrite run_lit_startswith.
    change (startswith (py "```") (c :: x))
      with ((96 =? c) && startswith [96; 96] x).
    destruct (96 =? c) eqn:Heq; [|done].
    apply N.eqb_eq in Heq as <-. done.
Qed.

(** The lazy star stops at the first closing brace that the closing fence
    follows. *)
Lemma head_lazy_scan acc body cs :
  let T := acc ++ body in
  snd <$> head (star_lazy (atom_matches true ADot) body
                ≫= λ x, ((λ st', (st'.1, (1%nat, take (length T - length st'.1) T) :: st'.2))
                          <$> run true (lit (py "}")) (x, cs))
                        ≫= run true closing)
  = (λ inner, (1%nat, acc ++ inner ++ py "}") :: cs) <$> upto_closing body.
Proof.
  cbn zeta. revert acc. induction body as [|c body IH]; intros acc.
  - cbn. done.
  - rewrite head_lazy_cons by done. cbn [upto_closing].
    rewrite run_lit_startswith.
    change (startswith (py "}") (c :: body)) with ((125 =? c) && true).
    change (drop (length (py "}")) (c :: body)) with body.
    destruct (decide (c = 125)) as [->|Hc].
    + cbn [N.eqb Pos.eqb andb].
      rewrite list_fmap_singleton, bind_singleton. cbn [fst snd].
      rewrite head_closing_scan. destruct (closes body) eqn:Hcl.
      * cbn [fmap option_fmap option_map snd]. do 3 f_equal.
        rewrite length_app. cbn [length].
        replace (length acc + S (length body) - length body)%nat
          with (length (acc ++ [125])) by (rewrite length_app; cbn; lia).
        replace (acc ++ 125 :: body) with ((acc ++ [125]) ++ body)
          by (by rewrite <- (assoc_L (++))).
        by rewrite take_app_length.
      * specialize (IH (acc ++ [125])).
        rewrite <- (assoc_L (++)) in IH. cbn [app] in IH. rewrite IH.
        destruct (upto_closing body); [|done]. cbn.
        by rewrite <- (assoc_L (++)).
    + assert ((125 =? c) = false) as -> by (apply N.eqb_neq; congruence).
      assert ((c =? 125) = false) as -> by (by apply N.eqb_neq).
      cbn [andb fmap list_fmap mbind list_bind head].
      specialize (IH (acc ++ [c])).
      rewrite <- (assoc_L (++)) in IH. cbn [app] in IH. rewrite IH.
      destruct (upto_closing body); [|done]. cbn.
      by rewrite <- (assoc_L (++)).
Qed.

Lemma run_braces_ne c t cs : c ≠ 123 → run true braces (c :: t, cs) = [].
Proof.
  intros Hc. rewrite run_seq, run_lit_startswith.
  change (startswith (py "{") (c :: t)) with ((123 =? c) && true).
  assert ((123 =? c) = false) as -> by (apply N.eqb_neq; congruence). done.
Qed.

Lemma run_braces_nil cs : run true braces ([], cs) = [].
Proof. done. Qed.

Lemma head_group_scan body cs :
  snd <$> head (run true (Group 1 braces ⋅ closing) (123 :: body, cs))
  = (λ inner, (1%nat, py "{" ++ inner ++ py "}") :: cs) <$> upto_closing body.
Proof.
  rewrite run_seq, run_group. cbn [fst snd].
  replace (run true braces (123 :: body, cs))
    with (run true braces (py "{" ++ body, cs)) by done.
  rewrite run_braces, fmap_bind_comm, list_bind_assoc.
  exact (head_lazy_scan (py "{") body cs).
Qed.

Lemma not_an_opening_brace {A} c body (f : str → option A) :
  c ≠ 123 →
  match c :: body with
  | 123 :: b => f b
  | _ => None
  end = None.
Proof.
  intros Hc. destruct c as [|p]; [done|].
  repeat (destruct p as [p|p|]; try (done || congruence)).
Qed.

Lemma head_after_tag_scan u :
  snd <$> head (run true after_tag (u, []))
  = match lstrip u with
    | 123 :: body =>
        (λ inner, [(1%nat, py "{" ++ inner ++ py "}")]) <$> upto_closing body
    | _ => None
    end.
Proof.
  rewrite run_seq, run_star, list_fmap_bind, head_greedy_lstrip.
  - cbn [compose]. destruct (lstrip u) as [|c body] eqn:Hu.
    + rewrite run_seq, run_group, run_braces_nil. done.
    + destruct (decide (c = 123)) as [->|Hc].
      * apply head_group_scan.
      * rewrite run_seq, run_group, run_braces_ne by done.
        rewrite (not_an_opening_brace c body
                   (λ b, (λ inner, [(1%nat, py "{" ++ inner ++ py "}")])
                         <$> upto_closing b)) by done.
        done.
  - intros c x Hc. cbn [compose].
    rewrite run_seq, run_group, run_braces_ne; [done|].
    by intros ->.
Qed.

Lemma fenced_here_unfold t :
  fenced_here t
  = if startswith fence t then
      let t1 := drop 3 t in
      let t2 := if startswith (py "json") t1 then drop 4 t1 else t1 in
      match lstrip t2 with
      | 123 :: body => (λ inner, py "{" ++ inner ++ py "}") <$> upto_closing body
      | _ => None
      end
    else None.
Proof.
  unfold fenced_here, after_opening. destruct (startswith fence t); [|done].
  cbn zeta. destruct (lstrip _) as [|c body]; [done|].
  destruct (decide (c = 123)) as [->|Hc]; [done|].
  rewrite (not_an_opening_brace c body Some) by done.
  by rewrite (not_an_opening_brace c body
                (λ b, (λ inner, py "{" ++ inner ++ py "}") <$> upto_closing b)).
Qed.

(** The fenced pattern at the front of a text finds what [fenced_here]
    finds. *)
Lemma head_fenced_scan t :
  snd <$> head (run true fenced_pattern (t, []))
  = (λ candidate, [(1%nat, candidate)]) <$> fenced_here t.
Proof.
  rewrite fenced_here_unfold. unfold fenced_pattern.
  rewrite run_seq, run_lit_startswith.
  change (startswith (py "```")) with (startswith fence).
  destruct (startswith fence t); [|done].
  rewrite bind_singleton. change (length (py "```")) with 3%nat.
  cbn zeta. set (t1 := drop 3 t).
  rewrite run_seq, run_opt, run_lit_startswith.
  change (length (py "json")) with 4%nat.
  assert (∀ u, snd <$> head (run true after_tag (u, []))
               = (λ candidate, [(1%nat, candidate)])
                 <$> match lstrip u with
                     | 123 :: body =>
                         (λ inner, py "{" ++ inner ++ py "}")
                         <$> upto_closing body
                     | _ => None
                     end) as Hscan.
  { intros u. rewrite head_after_tag_scan.
    destruct (lstrip u) as [|c body]; [done|].
    destruct (decide (c = 123)) as [->|Hc].
    - by destruct (upto_closing body).
    - rewrite (not_an_opening_brace c body
                 (λ b, (λ inner, [(1%nat, py "{" ++ inner ++ py "}")])
                       <$> upto_closing b)) by done.
      by rewrite (not_an_opening_brace c body
                    (λ b, (λ inner, py "{" ++ inner ++ py "}")
                          <$> upto_closing b)). }
  destruct (startswith (py "json") t1) eqn:Htag.
  - rewrite head_bind_app, !bind_singleton.
    assert (head (run true after_tag (t1, [])) = None) as ->.
    { apply (fmap_None snd). rewrite head_after_tag_scan.
      apply startswith_spec in Htag as [t' ->]. done. }
    rewrite <- Hscan. by destruct (head _).
  - rewrite app_nil_l, bind_singleton. apply Hscan.
Qed.

Lemma match_here_fenced_scan t :
  groups <$> match_here true fenced_pattern t
  = (λ candidate, [(1%nat, candidate)]) <$> fenced_here t.
Proof.
  unfold match_here. rewrite <- head_fenced_scan.
  by destruct (head _).
Qed.

Lemma match_here_fenced_cases t :
  match fenced_here t with
  | Some candidate =>
      ∃ m, match_here true fenced_pattern t = Some m
           ∧ group m 1 = Some candidate
  | None => match_here true fenced_pattern t = None
  end.
Proof.
  pose proof (match_here_fenced_scan t) as Hm.
  destruct (fenced_here t) as [candidate|],
    (match_here true fenced_pattern t) as [m|]; try done.
  injection Hm as Hm. exists m. split; [done|].
  unfold group. by rewrite Hm.
Qed.

(** The first search is the scan [fenced_find]. *)
Lemma search_fenced_scan s :
  (search true fenced_pattern s ≫= λ m, group m 1) = fenced_find s.
Proof.
  induction s as [|c s IH]; cbn [search fenced_find].
  - pose proof (match_here_fenced_cases []) as Hm.
    destruct (fenced_here []) as [candidate|].
    + destruct Hm as (m & -> & Hg). done.
    + by rewrite Hm.
  - pose proof (match_here_fenced_cases (c :: s)) as Hm.
    destruct (fenced_here (c :: s)) as [candidate|].
    + destruct Hm as (m & -> & Hg). done.
    + by rewrite Hm.
Qed.

Lemma search_fenced_None s :
  search true fenced_pattern s = None ↔ fenced_find s = None.
Proof.
  induction s as [|c s IH]; cbn [search fenced_find].
  - pose proof (match_here_fenced_cases []) as Hm.
    destruct (fenced_here []) as [candidate|].
    + by destruct Hm as (m & -> & Hg).
    + by rewrite Hm.
  - pose proof (match_here_fenced_cases (c :: s)) as Hm.
    destruct (fenced_here (c :: s)) as [candidate|].
    + by destruct Hm as (m & -> & Hg).
    + by rewrite Hm.
Qed.

(** ** The second tier *)

Lemma upto_last_brace_Some t inner :
  upto_last_brace t = Some inner →
  ∃ post, t = inner ++ py "}" ++ post ∧ 125 ∉ post.
Proof.
  revert inner. induction t as [|c t IH]; intros inner; [done|].
  cbn [upto_last_brace]. destruct (upto_last_brace t) as [inner'|] eqn:Hin.
  - intros [= <-]. destruct (IH inner' eq_refl) as (post & -> & Hpost).
    by exists post.
  - destruct (c =? 125) eqn:Hc; [|done]. intros [= <-].
    apply N.eqb_eq in Hc as ->. exists t. split; [done|].
    clear IH. induction t as [|d t IH]; [by intros ?%elem_of_nil|].
    cbn [upto_last_brace] in Hin.
    destruct (upto_last_brace t); [done|].
    destruct (d =? 125) eqn:Hd; [done|]. apply N.eqb_neq in Hd.
    intros [?|?]%elem_of_cons; [done|by apply IH].
Qed.

Lemma upto_last_brace_None t : upto_last_brace t = None → 125 ∉ t.
Proof.
  induction t as [|d t IH]; [by intros _ ?%elem_of_nil|].
  cbn [upto_last_brace]. destruct (upto_last_brace t); [done|].
  destruct (d =? 125) eqn:Hd; [done|]. apply N.eqb_neq in Hd.
  intros _ [?|?]%elem_of_cons; [done|by apply IH].
Qed.

Lemma greedy_find_Some s span :
  greedy_find s = Some span → first_to_last_brace s span.
Proof.
  induction s as [|c s IH]; [done|]. cbn [greedy_find].
  destruct (c =? 123) eqn:Hc.
  - apply N.eqb_eq in Hc as ->.
    destruct (upto_last_brace s) as [inner|] eqn:Hin; [|done].
    intros Heq.
    assert (span = py "{" ++ inner ++ py "}") as -> by (by injection Heq).
    apply upto_last_brace_Some in Hin as (post & -> & Hpost).
    exists [], inner, post. split; [|split; [done|split; [|done]]].
    + by rewrite <- !(assoc_L (++)).
    + by intros ?%elem_of_nil.
  - apply N.eqb_neq in Hc.
    intros (pre & body & post & -> & -> & Hpre & Hpost)%IH.
    exists (c :: pre), body, post. split; [done|]. split; [done|].
    split; [|done]. intros [?|?]%elem_of_cons; [congruence|done].
Qed.

Lemma greedy_find_None s : greedy_find s = None → ¬ has_brace_pair s.
Proof.
  assert (∀ pre body post,
            pre ++ py "{" ++ body ++ py "}" ++ post
            = pre ++ 123 :: body ++ 125 :: post) as Hflat by done.
  induction s as [|c s IH]; cbn [greedy_find].
  - intros _ (pre & body & post & Hs). rewrite Hflat in Hs.
    by destruct pre.
  - destruct (c =? 123) eqn:Hc.
    + destruct (upto_last_brace s) as [inner|] eqn:Hin; [done|].
      intros _ (pre & body & post & Hs). rewrite Hflat in Hs.
      apply upto_last_brace_None in Hin. apply Hin.
      destruct pre as [|d pre]; injection Hs as _ ->.
      * rewrite elem_of_app, elem_of_cons. by auto.
      * rewrite elem_of_app, elem_of_cons, elem_of_app, elem_of_cons. by auto.
    + apply N.eqb_neq in Hc. intros Hnone%IH (pre & body & post & Hs).
      rewrite Hflat in Hs.
      destruct pre as [|d pre]; injection Hs as Hd Hs; [congruence|].
      apply Hnone. exists pre, body, post. by rewrite Hflat.
Qed.

(** The second search is the scan [greedy_find]. *)
Lemma search_brace_scan s :
  (search true brace_pattern s ≫= λ m, group m 0) = greedy_find s.
Proof.
  destruct (greedy_find s) as [span|] eqn:Hg.
  - by rewrite (search_brace_first_to_last s span) by by apply greedy_find_Some.
  - apply greedy_find_None in Hg.
    destruct (search true brace_pattern s) as [m|] eqn:Hm; [|done].
    destruct Hg. apply has_brace_pair_search. by exists m.
Qed.

(** ** The block that the first tier takes *)

Lemma fenced_offset_Some s n :
  fenced_offset s = Some n →
  is_Some (fenced_here (drop n s)) ∧ fenced_find s = fenced_here (drop n s).
Proof.
  revert n. induction s as [|c s IH]; intros n; cbn [fenced_offset fenced_find].
  - destruct (fenced_here []) eqn:Hh; [|done]. intros [= <-].
    cbn [drop]. rewrite Hh. by eauto.
  - destruct (fenced_here (c :: s)) eqn:Hh.
    + intros [= <-]. cbn [drop]. rewrite Hh. by eauto.
    + destruct (fenced_offset s) as [n'|]; [|done]. intros [= <-].
      by apply IH.
Qed.

(** [fenced_here] at the front of a block: the scan for the closing brace
    starts right after the opening brace of the span. *)
Lemma fenced_here_block tag ws1 body ws2 post :
  tagged tag → blank ws1 →
  fenced_here (fenced_block tag ws1 (py "{" ++ body ++ py "}") ws2 ++ post)
  = (λ inner, py "{" ++ inner ++ py "}")
    <$> upto_closing (body ++ py "}" ++ ws2 ++ fence ++ post).
Proof.
  intros Htag Hws1. rewrite fenced_here_unfold. unfold fenced_block.
  rewrite <- !(assoc_L (++)).
  assert (startswith fence
            (fence ++ tag ++ ws1 ++ py "{" ++ body ++ py "}" ++ ws2 ++ fence
             ++ post) = true) as -> by (apply startswith_spec; by eexists).
  cbn zeta.
  change (drop 3 (fence ++ ?t)) with t.
  assert ((if startswith (py "json")
                (tag ++ ws1 ++ py "{" ++ body ++ py "}" ++ ws2 ++ fence ++ post)
           then drop 4 (tag ++ ws1 ++ py "{" ++ body ++ py "}" ++ ws2 ++ fence
                        ++ post)
           else tag ++ ws1 ++ py "{" ++ body ++ py "}" ++ ws2 ++ fence ++ post)
          = ws1 ++ py "{" ++ body ++ py "}" ++ ws2 ++ fence ++ post) as ->.
  { destruct Htag as [->| ->].
    - rewrite app_nil_l.
      pose proof (run_lit_startswith true (py "json")
                    (ws1 ++ 123 :: body ++ py "}" ++ ws2 ++ fence ++ post) [])
        as Hrun.
      rewrite run_tag_blank in Hrun by done.
      change (py "{" ++ ?t) with (123 :: t).
      by destruct (startswith _ _).
    - assert (startswith (py "json")
                (py "json" ++ ws1 ++ py "{" ++ body ++ py "}" ++ ws2 ++ fence
                 ++ post) = true) as -> by (apply startswith_spec; by eexists).
      done. }
  rewrite lstrip_blank by done.
  change (py "{" ++ ?t) with (123 :: t) at 1.
  by rewrite lstrip_nonspace.
Qed.

Lemma brace_span_inj inner body :
  py "{" ++ inner ++ py "}" = py "{" ++ body ++ py "}" → inner = body.
Proof.
  intros Heq. apply (inj (app (py "{"))) in Heq.
  by apply (inj (λ l, l ++ py "}")) in Heq.
Qed.

(** C3, as the code has it.  The candidate is what the two scans find, in
    their order: [fenced_find] first, [greedy_find] only when the first
    finds nothing, and the [ValueError] when neither finds anything.  The
    first scan finds something exactly when the text holds a triple
    backtick, an optional tag, whitespace, a brace-delimited span,
    whitespace and a triple backtick in a row, and what it finds is such a
    span; the second finds the span from the first opening brace to the
    last closing brace.  When the first scan takes the opening triple
    backtick of a given fenced block, the candidate is the object of that
    block exactly when the last brace of the object is the first closing
    brace after its opening brace that whitespace and a triple backtick
    follow. *)
Theorem C3_two_tier_search s :
  find_json_str s
  = match two_tier s with
    | Some candidate => inr (Some candidate)
    | None =>
        inl (ValueError (py "Não foi possível encontrar JSON na resposta"))
    end
  ∧ (is_Some (fenced_find s) ↔ has_fenced_block s)
  ∧ (∀ candidate,
       fenced_find s = Some candidate →
       ∃ pre tag ws1 ws2 post, fenced_at s pre tag ws1 candidate ws2 post)
  ∧ (∀ span, greedy_find s = Some span ↔ first_to_last_brace s span)
  ∧ (∀ pre tag ws1 body ws2 post,
       fenced_at s pre tag ws1 (py "{" ++ body ++ py "}") ws2 post →
       fenced_offset s = Some (length pre) →
       (find_json_str s = inr (Some (py "{" ++ body ++ py "}"))
        ↔ upto_closing (body ++ py "}" ++ ws2 ++ fence ++ post) = Some body)).
Proof.
  assert (find_json_str s
          = match two_tier s with
            | Some candidate => inr (Some candidate)
            | None =>
                inl (ValueError
                       (py "Não foi possível encontrar JSON na resposta"))
            end) as Hfind.
  { unfold find_json_str, two_tier.
    pose proof (search_fenced_scan s) as Hf.
    pose proof (search_fenced_None s) as Hn.
    pose proof (search_brace_scan s) as Hb.
    destruct (search true fenced_pattern s) as [m|].
    - change (group m 1 = fenced_find s) in Hf. rewrite Hf.
      destruct (fenced_find s); [done|]. discriminate (proj2 Hn eq_refl).
    - rewrite (proj1 Hn) by done.
      destruct (search true brace_pattern s) as [m|].
      + change (group m 0 = greedy_find s) in Hb. by rewrite <- Hb.
      + by rewrite <- Hb. }
  split; [exact Hfind|].
  split.
  { rewrite has_fenced_block_search, <- !not_eq_None_Some.
    by rewrite search_fenced_None. }
  split.
  { intros candidate Hc. pose proof (search_fenced_scan s) as Hf.
    rewrite Hc in Hf.
    destruct (search true fenced_pattern s) as [m|] eqn:Hm; [|done].
    change (group m 1 = Some candidate) in Hf.
    apply search_Some in Hm as (pre & post & -> & Hm).
    apply fenced_pattern_matches in Hm
      as (tag & ws1 & span & ws2 & Hg & Htag & Hws1 & Hspan & Hws2 & Hcs).
    unfold group in Hf. rewrite Hcs in Hf. injection Hf as <-.
    exists pre, tag, ws1, ws2, post. by rewrite Hg. }
  split.
  { intros span. split; [apply greedy_find_Some|].
    intros Hspan. rewrite <- search_brace_scan.
    by rewrite (search_brace_first_to_last s span). }
  intros pre tag ws1 body ws2 post (-> & Htag & Hws1 & _ & Hws2) Hoff.
  apply fenced_offset_Some in Hoff as [Hsome Hoff].
  rewrite drop_app_length in Hsome, Hoff.
  rewrite fenced_here_block in Hsome, Hoff by done.
  rewrite Hfind. unfold two_tier. rewrite Hoff.
  destruct (upto_closing _) as [inner|]; [|by destruct Hsome].
  cbn [fmap option_fmap option_map]. split.
  - intros Heq. f_equal. apply brace_span_inj. congruence.
  - intros Heq. by replace inner with body by congruence.
Qed.

End Scans.

Lemma after_a_fence_fenced_at :
  fenced_at after_a_fence fence_in_prose (py "json") nl
    (py "{" ++ pyq "'a': 1" ++ py "}") nl prose_after.
Proof.
  split; [reflexivity|]. split; [by right|].
  split; [by repeat constructor|].
  split; [|by repeat constructor]. by eexists.
Defined.

Lemma C3_witness : find_json_str after_a_fence = inr (Some second_object).
Proof.
  apply (proj2 (proj2 (proj2 (proj2 (C3_two_tier_search after_a_fence))))
           fence_in_prose (py "json") nl (pyq "'a': 1") nl prose_after).
  - exact after_a_fence_fenced_at.
  - vm_compute. reflexivity.
  - vm_compute. reflexivity.
Defined.

(** The response with one block and braces in the prose, and the one with
    two blocks. *)
Example two_tier_demo :
  two_tier one_block = Some fenced_object
  ∧ fenced_offset two_blocks = Some 0%nat
  ∧ two_tier two_blocks = Some across_blocks
  ∧ two_tier two_objects = Some (pyq "{'a': 1} and final {'a': 2}")
  ∧ two_tier no_braces = None.
Proof. vm_compute. by repeat split. Qed.

(** ** The answers of the server and the runs that succeed *)

Section Runs.
Context `{Library}.
Implicit Types (self : OllamaReceiptOCR) (w : World) (e : exn).

Lemma requests_printed_called lines rqs w :
  requests (printed lines (called rqs w)) = requests w ++ rqs.
Proof. done. Qed.

(** X1: the text [extract_image_data] returns is the answer of the vision
    model to the request that carries the base64 of the file, with the
    whitespace at both ends removed and nothing else; likewise
    [structure_to_json] returns the trimmed answer of the text model to
    the prompt built from its argument. *)
Theorem answers_are_trimmed self image_path text w :
  (∀ t w1, extract_image_data self image_path w = (inr t, w1) →
     ∃ bytes response ws1 ws2,
       files w !! image_path = Some bytes
       ∧ client_chat (requests w) (vision_request self (b64encode bytes))
         = inr response
       ∧ response = ws1 ++ t ++ ws2 ∧ blank ws1 ∧ blank ws2 ∧ trimmed t)
  ∧ (∀ t w1, structure_to_json self text w = (inr t, w1) →
       ∃ response ws1 ws2,
         client_chat (requests w) (text_request self text) = inr response
         ∧ response = ws1 ++ t ++ ws2 ∧ blank ws1 ∧ blank ws2 ∧ trimmed t).
Proof.
  split; intros t w1.
  - rewrite extract_image_data_run.
    destruct (files w !! image_path) as [bytes|]; [|done]. cbv zeta.
    destruct (client_chat _ _) as [msg|response] eqn:Hchat; [done|].
    intros [= <- _].
    destruct (strip_spec response) as (ws1 & ws2 & Hr & Hws1 & Hws2 & Ht).
    by exists bytes, response, ws1, ws2.
  - rewrite structure_to_json_run.
    destruct (client_chat _ _) as [msg|response] eqn:Hchat; [done|].
    intros [= <- _].
    destruct (strip_spec response) as (ws1 & ws2 & Hr & Hws1 & Hws2 & Ht).
    by exists response, ws1, ws2.
Qed.

(** X2: when [extract_image_data] or [structure_to_json] fails, the last
    line printed is the error line with the message of the exception, and
    the exception is raised again as it was: for the extractor the file
    could not be read and no call was made, or the one call failed; for
    the structurer the one call failed. *)
Theorem failed_call_is_logged self image_path text w e w1 :
  (extract_image_data self image_path w = (inl e, w1) →
     last (stdout w1)
     = Some (py "Erro ao extrair dados da imagem: " ++ str_exn e)
     ∧ ((∃ msg, e = FileNotFoundError msg ∧ files w !! image_path = None
                ∧ requests w1 = requests w)
        ∨ (∃ msg bytes,
             e = ClientError msg ∧ files w !! image_path = Some bytes
             ∧ client_chat (requests w)
                 (vision_request self (b64encode bytes)) = inl msg
             ∧ requests w1
               = requests w ++ [vision_request self (b64encode bytes)])))
  ∧ (structure_to_json self text w = (inl e, w1) →
       last (stdout w1) = Some (py "Erro ao estruturar JSON: " ++ str_exn e)
       ∧ ∃ msg, e = ClientError msg
                ∧ client_chat (requests w) (text_request self text) = inl msg
                ∧ requests w1 = requests w ++ [text_request self text]).
Proof.
  split.
  - rewrite extract_image_data_run.
    destruct (files w !! image_path) as [bytes|]; cbv zeta.
    + destruct (client_chat _ _) as [msg|response] eqn:Hchat; [|done].
      intros [= <- <-]. split.
      * unfold printed. cbn [stdout]. by rewrite last_app.
      * right. by exists msg, bytes.
    + intros [= <- <-]. split.
      * unfold printed. cbn [stdout]. by rewrite last_app.
      * left. by eexists.
  - rewrite structure_to_json_run.
    destruct (client_chat _ _) as [msg|response] eqn:Hchat; [|done].
    intros [= <- <-]. split.
    + unfold printed. cbn [stdout]. by rewrite last_app.
    + by exists msg.
Qed.

(** X3: a run succeeds exactly along one path: the image is read, the
    vision model answers the request that carries its base64, the text
    model answers the prompt built from the trimmed first answer, a
    candidate is found in the trimmed second answer, and [json.loads]
    turns it into a dict; the run then returns the row of that dict
    together with the dict. *)
Theorem successful_run_data_flow self image_path output_csv w df d w' :
  process_receipt self image_path output_csv w = (inr (df, d), w') →
  ∃ bytes answer1 answer2 candidate m,
    files w !! image_path = Some bytes
    ∧ client_chat (requests w) (vision_request self (b64encode bytes))
      = inr answer1
    ∧ client_chat (requests w ++ [vision_request self (b64encode bytes)])
        (text_request self (strip answer1)) = inr answer2
    ∧ find_json_str (strip answer2) = inr (Some candidate)
    ∧ json_loads candidate = inr d
    ∧ d = JDict m
    ∧ df = output_row m.
Proof.
  rewrite process_receipt_run. case_bool_decide as Hsome; [|done].
  rewrite extract_image_data_run.
  destruct (files w !! image_path) as [bytes|]; [|done]. cbv zeta.
  destruct (client_chat _ _) as [msg|answer1] eqn:Hchat1; [done|].
  rewrite structure_to_json_run, requests_printed_called.
  destruct (client_chat (requests w ++ _) _) as [msg|answer2] eqn:Hchat2;
    [done|].
  rewrite extract_json_from_response_run.
  destruct (find_json_str (strip answer2)) as [e|[candidate|]] eqn:Hfind;
    [done| |done].
  unfold loads.
  destruct (json_loads candidate) as [msg|v] eqn:Hloads; [done|].
  destruct v as [| | | | | |m]; try done.
  rewrite create_dataframe_dict. intros [= <- <- _].
  by exists bytes, answer1, answer2, candidate, m.
Qed.

(** X4: a run that returns has made exactly two calls, the request with
    the base64 of the file and then the prompt built from the trimmed
    first answer; it has printed the nine lines of the states, and the
    line of the persist step when there is one; and the only file it has
    changed is the one at the output path, which holds the returned frame
    as [to_csv] writes it: no file at all when the path is [None] or
    empty. *)
Theorem returned_run_trace self image_path output_csv w df d w' :
  process_receipt self image_path output_csv w = (inr (df, d), w') →
  ∃ bytes answer1,
    files w !! image_path = Some bytes
    ∧ client_chat (requests w) (vision_request self (b64encode bytes))
      = inr answer1
    ∧ requests w'
      = requests w ++ [vision_request self (b64encode bytes);
                       text_request self (strip answer1)]
    ∧ stdout w'
      = stdout w
        ++ success_lines image_path (b64encode bytes) (strip answer1)
        ++ saved_line output_csv
    ∧ files w'
      = if truthy output_csv
        then <[default [] output_csv := to_csv df]> (files w)
        else files w.
Proof.
  rewrite process_receipt_run. case_bool_decide as Hsome; [|done].
  rewrite extract_image_data_run.
  destruct (files w !! image_path) as [bytes|]; [|done]. cbv zeta.
  destruct (client_chat _ _) as [msg|answer1] eqn:Hchat1; [done|].
  rewrite structure_to_json_run, requests_printed_called.
  destruct (client_chat (requests w ++ _) _) as [msg|answer2] eqn:Hchat2;
    [done|].
  rewrite extract_json_from_response_run.
  destruct (find_json_str (strip answer2)) as [e|[candidate|]] eqn:Hfind;
    [done| |done].
  unfold loads.
  destruct (json_loads candidate) as [msg|v] eqn:Hloads; [done|].
  destruct v as [| | | | | |m]; try done.
  rewrite create_dataframe_dict. intros [= <- _ <-].
  exists bytes, answer1. split; [done|]. split; [done|].
  unfold saved_line, success_lines.
  destruct (truthy output_csv);
    unfold printed, called, written; cbn [files stdout requests];
    (split; [|split]);
    rewrite <- ?(assoc_L (++)), ?app_nil_r; reflexivity.
Qed.

End Runs.

Lemma answers_are_trimmed_witness :
  ∃ ws1 ws2,
    padded_answer = ws1 ++ py "Matricula: 12345" ++ ws2
    ∧ blank ws1 ∧ blank ws2 ∧ trimmed (py "Matricula: 12345").
Proof.
  destruct (answers_are_trimmed (H := library_padding) (init default_host)
              (py "certidao.png") [] Stub.world) as [Hextract _].
  edestruct (Hextract (py "Matricula: 12345"))
    as (bytes & response & ws1 & ws2 & _ & Hchat & Hresp & Hws1 & Hws2 & Ht).
  { vm_compute. reflexivity. }
  injection Hchat as <-. by exists ws1, ws2.
Defined.

Lemma failed_call_is_logged_witness :
  ∃ w1,
    extract_image_data (H := Stub.library_down) (init default_host)
      (py "certidao.png") Stub.world
    = (inl (ClientError (py "Failed to connect to Ollama")), w1)
    ∧ last (stdout w1)
      = Some (py "Erro ao extrair dados da imagem: Failed to connect to Ollama")
    ∧ length (requests w1) = 1%nat.
Proof.
  eexists. split; [vm_compute; reflexivity|].
  edestruct (failed_call_is_logged (H := Stub.library_down)
               (init default_host) (py "certidao.png") [] Stub.world)
    as [Hextract _].
  edestruct Hextract as [Hlast _]; [vm_compute; reflexivity|].
  split; [exact Hlast|reflexivity].
Defined.

Lemma successful_run_data_flow_witness :
  ∃ bytes answer1 answer2 candidate m,
    files Stub.world !! py "certidao.png" = Some bytes
    ∧ Stub.answer [] (vision_request (init default_host) (Stub.base64 bytes))
      = inr answer1
    ∧ Stub.answer [vision_request (init default_host) (Stub.base64 bytes)]
        (text_request (init default_host) (strip answer1)) = inr answer2
    ∧ find_json_str (strip answer2) = inr (Some candidate)
    ∧ Stub.parse candidate = inr (JDict m).
Proof.
  destruct (process_receipt (H := Stub.library) (init default_host)
              (py "certidao.png") None Stub.world) as [[e|[df d]] w'] eqn:Hrun.
  - exfalso. vm_compute in Hrun. discriminate.
  - destruct (successful_run_data_flow (H := Stub.library) _ _ _ _ _ _ _ Hrun)
      as (bytes & a1 & a2 & c & m & Hf & H1 & H2 & Hfind & Hloads & -> & _).
    exists bytes, a1, a2, c, m.
    split; [exact Hf|]. split; [exact H1|]. split; [exact H2|].
    split; [exact Hfind|exact Hloads].
Defined.

Lemma returned_run_trace_witness :
  ∃ df d w',
    process_receipt (H := library_padding) (init default_host)
      (py "certidao.png") (Some (py "out.csv")) Stub.world
    = (inr (df, d), w')
    ∧ length (requests w') = 2%nat
    ∧ length (stdout w') = 10%nat
    ∧ files w' = <[py "out.csv" := Stub.write_csv df]> (files Stub.world).
Proof.
  destruct (process_receipt (H := library_padding) (init default_host)
              (py "certidao.png") (Some (py "out.csv")) Stub.world)
    as [[e|[df d]] w'] eqn:Hrun; [exfalso; vm_compute in Hrun; discriminate|].
  destruct (returned_run_trace (H := library_padding) _ _ _ _ _ _ _ Hrun)
    as (bytes & answer1 & _ & _ & Hreq & Hout & Hfiles).
  exists df, d, w'. split; [reflexivity|].
  rewrite Hreq, Hout. split; [reflexivity|]. split; [reflexivity|].
  exact Hfiles.
Defined.

(** ** What a run leaves untouched *)

Section Frame.
Context `{Library}.
Implicit Types (self : OllamaReceiptOCR) (w : World).

(** Printing and calling the server add to the world and change no file. *)
Lemma grows_printed_called lines rqs w w0 :
  files w = files w0 → stdout w0 `prefix_of` stdout w →
  requests w0 `prefix_of` requests w →
  files (printed lines (called rqs w)) = files w0
  ∧ stdout w0 `prefix_of` stdout (printed lines (called rqs w))
  ∧ requests w0 `prefix_of` requests (printed lines (called rqs w)).
Proof.
  intros Hf Hs Hr. split; [done|]. split.
  - etrans; [exact Hs|]. by apply prefix_app_r.
  - etrans; [exact Hr|]. by apply prefix_app_r.
Qed.

Lemma grows_printed lines w w0 :
  files w = files w0 → stdout w0 `prefix_of` stdout w →
  requests w0 `prefix_of` requests w →
  files (printed lines w) = files w0
  ∧ stdout w0 `prefix_of` stdout (printed lines w)
  ∧ requests w0 `prefix_of` requests (printed lines w).
Proof.
  intros Hf Hs Hr. split; [done|]. split; [|done].
  etrans; [exact Hs|]. by apply prefix_app_r.
Qed.

Lemma extract_image_data_grows self image_path w r w1 :
  extract_image_data self image_path w = (r, w1) →
  files w1 = files w ∧ stdout w `prefix_of` stdout w1
  ∧ requests w `prefix_of` requests w1.
Proof.
  rewrite extract_image_data_run.
  destruct (files w !! image_path) as [bytes|]; cbv zeta.
  - destruct (client_chat _ _); intros [= <- <-];
      by apply grows_printed_called.
  - intros [= <- <-]. by apply grows_printed.
Qed.

Lemma structure_to_json_grows self text w r w1 :
  structure_to_json self text w = (r, w1) →
  files w1 = files w ∧ stdout w `prefix_of` stdout w1
  ∧ requests w `prefix_of` requests w1.
Proof.
  rewrite structure_to_json_run.
  destruct (client_chat _ _); intros [= <- <-]; by apply grows_printed_called.
Qed.

Lemma extract_json_from_response_grows self s w r w1 :
  extract_json_from_response self s w = (r, w1) →
  files w1 = files w ∧ stdout w `prefix_of` stdout w1
  ∧ requests w `prefix_of` requests w1.
Proof.
  rewrite extract_json_from_response_run.
  destruct (find_json_str s) as [e|json_str];
    [intros [= <- <-]; by apply grows_printed|].
  destruct (loads json_str) as [[]|d]; intros [= <- <-]; by apply grows_printed.
Qed.

Lemma create_dataframe_grows self v w r w1 :
  create_dataframe self v w = (r, w1) →
  files w1 = files w ∧ stdout w `prefix_of` stdout w1
  ∧ requests w `prefix_of` requests w1.
Proof.
  unfold create_dataframe, mbind, M_bind, print, raise, mret, M_ret.
  destruct (record_of v) as [e|record]; intros [= <- <-];
    cbn [files stdout requests]; (split; [done|]); (split; [|done]).
  - by apply prefix_app_r.
  - rewrite <- (assoc_L (++)). by apply prefix_app_r.
Qed.

(** X5: whatever the outcome, a run of [process_receipt] only adds to what
    was printed and to the calls made, and it leaves every file as it was
    except the output path; without an output path (none given, or the
    empty string) no file changes at all. *)
Theorem process_receipt_frame self image_path output_csv w r w' :
  process_receipt self image_path output_csv w = (r, w') →
  (∀ q, truthy output_csv = false ∨ q ≠ default [] output_csv →
        files w' !! q = files w !! q)
  ∧ stdout w `prefix_of` stdout w'
  ∧ requests w `prefix_of` requests w'.
Proof.
  rewrite process_receipt_run.
  assert (∀ w1, files w1 = files w →
            ∀ q, truthy output_csv = false ∨ q ≠ default [] output_csv →
                 files w1 !! q = files w !! q) as Hkeep
    by (by intros w1 ->).
  case_bool_decide as Hsome; [|by intros [= <- <-]].
  destruct (extract_image_data _ _ _) as [[e|t] w1] eqn:He;
    apply extract_image_data_grows in He as (Hf1 & Hs1 & Hr1).
  { intros [= <- <-]. split; [by apply Hkeep|done]. }
  destruct (structure_to_json _ _ _) as [[e|j] w2] eqn:Hj;
    apply structure_to_json_grows in Hj as (Hf2 & Hs2 & Hr2).
  { intros [= <- <-]. split; [apply Hkeep; congruence|].
    split; by etrans. }
  destruct (extract_json_from_response _ _ _) as [[e|d] w3] eqn:Hd;
    apply extract_json_from_response_grows in Hd as (Hf3 & Hs3 & Hr3).
  { intros [= <- <-]. split; [apply Hkeep; congruence|].
    split; etrans; (done || by etrans). }
  destruct (create_dataframe _ _ _) as [[e|df] w4] eqn:Hb;
    apply create_dataframe_grows in Hb as (Hf4 & Hs4 & Hr4).
  { intros [= <- <-]. split; [apply Hkeep; congruence|].
    split; etrans; (done || etrans; (done || by etrans)). }
  assert (stdout w `prefix_of` stdout w4) as Hs
    by (etrans; [done|]; etrans; [done|]; by etrans).
  assert (requests w `prefix_of` requests w4) as Hr
    by (etrans; [done|]; etrans; [done|]; by etrans).
  intros [= <- <-]. destruct (truthy output_csv) eqn:Hout.
  - split; [|split; [|done]].
    + intros q [|Hq]; [done|]. unfold printed, written. cbn [files].
      rewrite lookup_insert_ne by done. congruence.
    + unfold printed, written. cbn [stdout]. etrans; [exact Hs|].
      by apply prefix_app_r.
  - split; [apply Hkeep; congruence|done].
Qed.

End Frame.

Lemma process_receipt_frame_witness :
  files (process_receipt (H := Stub.library) (init default_host)
           (py "certidao.png") (Some []) Stub.world).2 !! py "certidao.png"
  = Some [137; 80; 78; 71]
  ∧ files (process_receipt (H := Stub.library) (init default_host)
             (py "certidao.png") (Some []) Stub.world).2 !! []
    = None.
Proof.
  destruct (process_receipt (H := Stub.library) (init default_host)
              (py "certidao.png") (Some []) Stub.world) as [r w'] eqn:Hrun.
  destruct (process_receipt_frame (H := Stub.library) _ _ _ _ _ _ Hrun)
    as (Hfiles & _ & _).
  cbn [snd]. rewrite !Hfiles by (left; reflexivity). split; reflexivity.
Defined.

(** ** More on the JSON recoverer *)

Section Recovered.
Context `{Library}.
Implicit Types (s span : str) (self : OllamaReceiptOCR) (w : World).

Lemma find_occurs sub s n : find sub s = Some n → occurs_at sub s n.
Proof.
  revert n. induction s as [|d s IH]; intros n; cbn;
    destruct (startswith sub _) eqn:Hp.
  - intros [= <-]. apply startswith_spec in Hp as [t Ht]. by exists [], t.
  - done.
  - intros [= <-]. apply startswith_spec in Hp as [t Ht]. by exists [], t.
  - destruct (find sub s) as [m|]; [|done]. intros [= <-].
    destruct (IH m eq_refl) as (a & b & -> & <-). by exists (d :: a), b.
Qed.

Lemma no_fence_no_fenced_block s : find fence s = None → ¬ has_fenced_block s.
Proof.
  intros Hnone (pre & tag & ws1 & span & ws2 & post & -> & _).
  apply (find_None _ _ (length pre) Hnone).
  exists pre, (tag ++ ws1 ++ span ++ ws2 ++ fence ++ post).
  unfold fenced_block. by rewrite <- !(assoc_L (++)).
Qed.

(** The candidate is a brace-delimited part of the response. *)
Lemma find_json_str_substring s json_str :
  find_json_str s = inr json_str →
  ∃ pre candidate post,
    json_str = Some candidate ∧ s = pre ++ candidate ++ post
    ∧ brace_span candidate.
Proof.
  unfold find_json_str.
  destruct (search true fenced_pattern s) as [m|] eqn:Hm.
  - intros [= <-]. apply search_Some in Hm as (pre & post & -> & Hm).
    apply fenced_pattern_matches in Hm
      as (tag & ws1 & span & ws2 & Hg & _ & _ & Hspan & _ & Hcs).
    exists (pre ++ fence ++ tag ++ ws1), span, (ws2 ++ fence ++ post).
    split; [unfold group; by rewrite Hcs|]. split; [|done].
    rewrite Hg. unfold fenced_block. by rewrite <- !(assoc_L (++)).
  - destruct (search true brace_pattern s) as [m|] eqn:Hm'; [|done].
    intros [= <-]. apply search_Some in Hm' as (pre & post & -> & Hm').
    apply brace_pattern_matches in Hm' as [Hspan _].
    by exists pre, (group0 m), post.
Qed.

(** X6: a value the recoverer returns is what [json.loads] made of a part
    of the response that opens with a brace and closes with one; nothing
    is returned that was not parsed from the response. *)
Theorem recovered_value_comes_from_the_response self s w d w' :
  extract_json_from_response self s w = (inr d, w') →
  ∃ pre candidate post,
    s = pre ++ candidate ++ post
    ∧ brace_span candidate
    ∧ find_json_str s = inr (Some candidate)
    ∧ json_loads candidate = inr d
    ∧ w' = printed [py "Extraindo JSON da resposta...";
                    py "JSON parseado com sucesso"] w.
Proof.
  rewrite extract_json_from_response_run.
  destruct (find_json_str s) as [e|json_str] eqn:Hfind; [done|].
  destruct (find_json_str_substring s json_str Hfind)
    as (pre & candidate & post & -> & Hs & Hspan).
  unfold loads. destruct (json_loads candidate) as [msg|v] eqn:Hloads; [done|].
  intros [= <- <-]. by exists pre, candidate, post.
Qed.

(** X8: a response that is one brace-delimited span and holds no triple
    backtick is taken whole: the recoverer returns what [json.loads] makes
    of the entire response. *)
Theorem bare_response_is_parsed_whole self s w d :
  brace_span s → find fence s = None → json_loads s = inr d →
  extract_json_from_response self s w
  = (inr d, printed [py "Extraindo JSON da resposta...";
                     py "JSON parseado com sucesso"] w).
Proof.
  intros [body ->] Hnone Hloads.
  rewrite extract_json_from_response_run.
  rewrite (find_json_str_brace _ (py "{" ++ body ++ py "}")).
  - unfold loads. by rewrite Hloads.
  - by apply no_fence_no_fenced_block.
  - exists [], body, []. rewrite app_nil_r.
    split; [done|]. split; [done|]. split; by intros ?%elem_of_nil.
Qed.

(** X9: a response that starts with a fenced block around an object which
    holds no triple backtick gives that object, whatever follows the
    block: the recoverer returns what [json.loads] makes of the object. *)
Theorem fenced_response_is_parsed self w tag ws1 object ws2 post d :
  tagged tag → blank ws1 → blank ws2 → brace_span object →
  find fence object = None → json_loads object = inr d →
  extract_json_from_response self
    (fenced_block tag ws1 object ws2 ++ post) w
  = (inr d, printed [py "Extraindo JSON da resposta...";
                     py "JSON parseado com sucesso"] w).
Proof.
  intros Htag Hws1 Hws2 Hobject Hnone Hloads.
  rewrite extract_json_from_response_run.
  rewrite (find_json_str_first_fence _ [] tag ws1 object ws2 post).
  - unfold loads. by rewrite Hloads.
  - done.
  - intros i _. cbn. lia.
  - intros i. by apply find_None.
Qed.

End Recovered.

Lemma recovered_value_comes_from_the_response_witness :
  ∃ pre candidate post,
    one_block = pre ++ candidate ++ post
    ∧ brace_span candidate
    ∧ Stub.parse candidate
      = inr (JDict {[ py "Matricula" := JStr (py "12345");
                      py "Livro" := JDict {[ py "vol" := JInt 7 ]} ]}).
Proof.
  edestruct (recovered_value_comes_from_the_response (H := Stub.library)
               (init default_host) one_block Stub.world)
    as (pre & candidate & post & Hs & Hspan & _ & Hloads & _).
  { vm_compute. reflexivity. }
  by exists pre, candidate, post.
Defined.

Lemma bare_response_is_parsed_whole_witness :
  extract_json_from_response (H := Stub.library) (init default_host)
    bare_object Stub.world
  = (inr (JDict {[ py "Matricula" := JStr (py "12345");
                   py "Folha" := JStr (py "7") ]}),
     printed [py "Extraindo JSON da resposta...";
              py "JSON parseado com sucesso"] Stub.world).
Proof.
  apply (bare_response_is_parsed_whole (H := Stub.library)).
  - by exists (pyq "'Matricula': '12345', 'Folha': '7'").
  - vm_compute. reflexivity.
  - vm_compute. reflexivity.
Defined.

Lemma fenced_response_is_parsed_witness :
  extract_json_from_response (H := Stub.library) (init default_host)
    (fenced_block (py "json") nl fenced_object nl ++ prose_after) Stub.world
  = (inr (JDict {[ py "Matricula" := JStr (py "12345");
                   py "Livro" := JDict {[ py "vol" := JInt 7 ]} ]}),
     printed [py "Extraindo JSON da resposta...";
              py "JSON parseado com sucesso"] Stub.world).
Proof.
  apply (fenced_response_is_parsed (H := Stub.library)).
  - by right.
  - by repeat constructor.
  - by repeat constructor.
  - by exists (pyq "'Matricula': '12345', 'Livro': {'vol': 7}").
  - vm_compute. reflexivity.
  - vm_compute. reflexivity.
Defined.

(** ** The prompt of the structurer *)

Lemma occurs_at_app sub s t i : occurs_at sub s i → occurs_at sub (s ++ t) i.
Proof.
  intros (a & b & -> & Hi). exists a, (b ++ t).
  by rewrite <- !(assoc_L (++)).
Qed.

Lemma structure_prompt_parts text :
  structure_prompt text = prompt_head ++ text ++ prompt_foot.
Proof. reflexivity. Qed.

Lemma field_lines_in_prompt_head :
  Forall (λ key, is_Some (find (field_line key) prompt_head)) known_keys.
Proof. repeat constructor; vm_compute; eauto. Qed.

(** X10: the prompt is a fixed text around the extracted text, which it
    embeds unchanged, and the fixed part before it announces every one of
    the thirteen keys the record builder reads, as a line [- key (]. *)
Theorem prompt_lists_every_field text :
  structure_prompt text = prompt_head ++ text ++ prompt_foot
  ∧ Forall (λ key, ∃ i, occurs_at (field_line key) (structure_prompt text) i
                        ∧ (i < length prompt_head)%nat)
      known_keys.
Proof.
  split; [apply structure_prompt_parts|].
  eapply Forall_impl; [apply field_lines_in_prompt_head|].
  intros key [i Hi]. exists i. rewrite structure_prompt_parts. split.
  - by apply occurs_at_app, find_occurs.
  - apply find_occurs in Hi as (a & b & Hab & <-).
    rewrite Hab. change (field_line key) with (45 :: 32 :: key ++ py " (").
    rewrite length_app. cbn [app length]. lia.
Qed.

(** ** The command line *)

Section CommandLine.
Context `{Library} `{Console}.
Implicit Types (args : Namespace) (w : World).

(** X11: when the client is constructed and one of the five states of the
    run fails, [main] ends with [sys.exit(1)]; the error stream holds one
    line, [ERRO:] followed by the message of the exception of that state;
    nothing is displayed after the failure; and no file has changed, with
    or without [--output]. *)
Theorem failed_run_exits_with_one args w st e w' :
  client_error (args_host args) = None →
  fails_at (init (args_host args)) (args_image_path args) w st e w' →
  main args w
  = ({| exit_code := Some 1%Z;
        stderr := [nl ++ py "ERRO: " ++ str_exn e] |}, w')
  ∧ files w' = files w.
Proof.
  intros Hclient Hfail. unfold main. rewrite Hclient.
  assert (process_receipt (init (args_host args)) (args_image_path args)
            (args_output args) w = (inl e, w')) as ->.
  { rewrite process_receipt_run.
    destruct Hfail as [Hnone|e w1 Hsome He|t w1 e w2 Hsome He Hs
                      |t w1 j w2 e w3 Hsome He Hs Hr
                      |t w1 j w2 d w3 e w4 Hsome He Hs Hr Hb].
    - rewrite bool_decide_eq_false_2; [done|]. rewrite Hnone. by intros [? [=]].
    - by rewrite bool_decide_eq_true_2, He.
    - by rewrite bool_decide_eq_true_2, He, Hs.
    - by rewrite bool_decide_eq_true_2, He, Hs, Hr.
    - by rewrite bool_decide_eq_true_2, He, Hs, Hr, Hb. }
  split; [done|].
  destruct Hfail as [Hnone|e w1 Hsome He|t w1 e w2 Hsome He Hs
                    |t w1 j w2 e w3 Hsome He Hs Hr
                    |t w1 j w2 d w3 e w4 Hsome He Hs Hr Hb]; [done|..].
  - by apply extract_image_data_grows in He as [? _].
  - apply extract_image_data_grows in He as [? _].
    apply structure_to_json_grows in Hs as [? _]. congruence.
  - apply extract_image_data_grows in He as [? _].
    apply structure_to_json_grows in Hs as [? _].
    apply extract_json_from_response_grows in Hr as [? _]. congruence.
  - apply extract_image_data_grows in He as [? _].
    apply structure_to_json_grows in Hs as [? _].
    apply extract_json_from_response_grows in Hr as [? _].
    apply create_dataframe_grows in Hb as [? _]. congruence.
Qed.

End CommandLine.

Lemma failed_run_exits_with_one_witness :
  ∃ w',
    main (H := Stub.library_down) (H0 := stub_console)
      {| args_image_path := py "certidao.png"; args_host := default_host;
         args_output := Some (py "out.csv"); args_show_json := true |}
      Stub.world
    = ({| exit_code := Some 1%Z;
          stderr := [nl ++ py "ERRO: Failed to connect to Ollama"] |}, w')
    ∧ files w' = files Stub.world.
Proof.
  eexists.
  apply (failed_run_exits_with_one (H := Stub.library_down)
           (H0 := stub_console)
           {| args_image_path := py "certidao.png"; args_host := default_host;
              args_output := Some (py "out.csv"); args_show_json := true |}
           Stub.world Extract
           (ClientError (py "Failed to connect to Ollama"))).
  - reflexivity.
  - apply fails_extract; [vm_compute; eauto|vm_compute; reflexivity].
Defined.

(** The other ways [main] ends.  With the test double the run returns and
    [main] with it; on a console whose encoding is ASCII the closing line
    cannot be printed, and [main] ends with status 1 after the run has
    returned and the frame was saved. *)
Example main_returns :
  (main (H := Stub.library) (H0 := stub_console)
     {| args_image_path := py "certidao.png"; args_host := default_host;
        args_output := None; args_show_json := false |} Stub.world).1
  = {| exit_code := None; stderr := [] |}.
Proof. vm_compute. reflexivity. Qed.

Example main_on_an_ascii_console :
  ∃ w',
    main (H := Stub.library) (H0 := ascii_console)
      {| args_image_path := py "certidao.png"; args_host := default_host;
         args_output := Some (py "out.csv"); args_show_json := false |}
      Stub.world
    = ({| exit_code := Some 1%Z;
          stderr := [nl ++ py "ERRO: 'ascii' codec can't encode character"] |},
       w')
    ∧ is_Some (files w' !! py "out.csv").
Proof. eexists. split; [vm_compute; reflexivity|]. vm_compute. eauto. Qed.

(** ** Matching is local *)

Section Locality.
Variable dotall : bool.
Implicit Types (r : regex) (s t u : str) (cs : captures) (p : N → bool).

(** A state whose remaining text still holds all of [t]. *)
Local Abbreviation keeps t :=
  (λ st : str * captures, (length t ≤ length st.1)%nat).

(** The same state with [t] put after the remaining text. *)
Local Abbreviation followed_by t :=
  (λ st : str * captures, (st.1 ++ t, st.2)).

Lemma filter_bind {A B} (P : B → Prop) `{!∀ x, Decision (P x)}
    (f : A → list B) (l : list A) :
  filter P (l ≫= f) = l ≫= (λ x, filter P (f x)).
Proof.
  induction l as [|x l IH]; [done|].
  by rewrite !bind_cons, filter_app, IH.
Qed.

Lemma bind_filter_skip {A B} (Q : A → Prop) `{!∀ x, Decision (Q x)}
    (g : A → list B) (l : list A) :
  (∀ x, x ∈ l → ¬ Q x → g x = []) → l ≫= g = filter Q l ≫= g.
Proof.
  induction l as [|x l IH]; intros Hskip; [done|].
  rewrite bind_cons, filter_cons, IH by (intros; apply Hskip; set_solver).
  destruct (decide (Q x)) as [|Hx]; [by rewrite bind_cons|].
  rewrite (Hskip x); [done|set_solver|done].
Qed.

Lemma filter_fmap_keeps {A B} (P : B → Prop) `{!∀ y, Decision (P y)}
    (Q : A → Prop) `{!∀ x, Decision (Q x)} (f : A → B) (l : list A) :
  (∀ x, P (f x) ↔ Q x) → filter P (f <$> l) = f <$> filter Q l.
Proof.
  intros HPQ. induction l as [|x l IH]; [done|].
  rewrite fmap_cons, !filter_cons, IH.
  destruct (decide (P (f x))) as [HP|HP], (decide (Q x)) as [HQ|HQ];
    [done| | |done].
  - by apply HPQ in HP.
  - by apply HPQ in HQ.
Qed.

Lemma filter_none {A} (P : A → Prop) `{!∀ x, Decision (P x)} (l : list A) :
  (∀ x, x ∈ l → ¬ P x) → filter P l = [].
Proof.
  induction l as [|x l IH]; intros Hnone; [done|].
  rewrite filter_cons_False by (apply Hnone; set_solver).
  apply IH. intros y Hy. apply Hnone. set_solver.
Qed.

Lemma run_shrinks r st st' :
  st' ∈ run dotall r st → (length st'.1 ≤ length st.1)%nat.
Proof.
  destruct st as [s cs], st' as [s' cs']. intros (u & -> & _)%run_sound.
  cbn. rewrite length_app. lia.
Qed.

Lemma star_greedy_ends p t :
  ∃ l, star_greedy p t = l ++ [t]
       ∧ Forall (λ u, (length u < length t)%nat) l.
Proof.
  induction t as [|c t (l & Hl & Hshort)]; [by exists []|]. cbn.
  destruct (p c); [|by exists []].
  exists (l ++ [t]). split; [by rewrite Hl|].
  apply Forall_app. split; [|repeat constructor; cbn; lia].
  eapply Forall_impl; [exact Hshort|]. cbn. lia.
Qed.

Lemma star_lazy_begins p t :
  ∃ l, star_lazy p t = t :: l
       ∧ Forall (λ u, (length u < length t)%nat) l.
Proof.
  induction t as [|c t (l & Hl & Hshort)]; [by exists []|]. cbn.
  destruct (p c); [|by exists []].
  exists (t :: l). split; [by rewrite Hl|].
  constructor; [cbn; lia|].
  eapply Forall_impl; [exact Hshort|]. cbn. lia.
Qed.

Lemma filter_short t (l : list str) :
  Forall (λ u, (length u < length t)%nat) l →
  filter (λ u, (length t ≤ length u)%nat) l = [].
Proof.
  induction 1 as [|u l Hu _ IH]; [done|].
  rewrite filter_cons_False by lia. done.
Qed.

Lemma star_greedy_local p s t :
  filter (λ u, (length t ≤ length u)%nat) (star_greedy p (s ++ t))
  = (.++ t) <$> star_greedy p s.
Proof.
  induction s as [|c s IH]; cbn [app].
  - destruct (star_greedy_ends p t) as (l & -> & Hshort).
    rewrite filter_app, filter_short by done.
    by rewrite filter_cons_True by done.
  - cbn [star_greedy]. destruct (p c).
    + rewrite filter_app, IH, fmap_app.
      rewrite filter_cons_True by (cbn; rewrite length_app; lia). done.
    + rewrite filter_cons_True by (cbn; rewrite length_app; lia). done.
Qed.

Lemma star_lazy_local p s t :
  filter (λ u, (length t ≤ length u)%nat) (star_lazy p (s ++ t))
  = (.++ t) <$> star_lazy p s.
Proof.
  induction s as [|c s IH]; cbn [app].
  - destruct (star_lazy_begins p t) as (l & -> & Hshort).
    rewrite filter_cons_True, filter_short by done. done.
  - cbn [star_lazy].
    rewrite filter_cons_True by (cbn; rewrite length_app; lia).
    destruct (p c); [by rewrite IH|done].
Qed.

(** Of the ways to match in a text followed by [t], those that leave [t]
    unread are, in the same order, the ways to match in the text alone. *)
Lemma run_local r s t cs :
  filter (keeps t) (run dotall r (s ++ t, cs))
  = followed_by t <$> run dotall r (s, cs).
Proof.
  revert s cs.
  induction r as [|a|r1 IH1 r2 IH2|r IH|a|a|n r IH]; intros s cs.
  - cbn [run]. rewrite filter_cons_True by (cbn; rewrite length_app; lia).
    done.
  - cbn [run fst snd]. destruct s as [|c s]; cbn [app].
    + destruct t as [|c t]; [done|].
      destruct (atom_matches dotall a c); [|done].
      by rewrite filter_cons_False by (cbn; lia).
    + destruct (atom_matches dotall a c); [|done].
      by rewrite filter_cons_True by (cbn; rewrite length_app; lia).
  - rewrite !run_seq, filter_bind.
    rewrite (bind_filter_skip (keeps t)).
    + rewrite IH1, list_fmap_bind, fmap_bind_comm.
      apply list_bind_ext; [|done]. intros [s1 cs1]. apply IH2.
    + intros st1 _ Hshort. apply filter_none. intros st2 Hin.
      apply run_shrinks in Hin. lia.
  - rewrite !run_opt, filter_app, IH, fmap_app.
    by rewrite filter_cons_True by (cbn; rewrite length_app; lia).
  - rewrite !run_star.
    rewrite (filter_fmap_keeps _ (λ u, (length t ≤ length u)%nat)) by done.
    rewrite star_greedy_local, <- !list_fmap_compose. done.
  - rewrite !run_star_lazy.
    rewrite (filter_fmap_keeps _ (λ u, (length t ≤ length u)%nat)) by done.
    rewrite star_lazy_local, <- !list_fmap_compose. done.
  - rewrite !run_group.
    rewrite (filter_fmap_keeps _ (keeps t)) by done.
    rewrite IH, <- !list_fmap_compose. apply list_fmap_ext.
    intros i [s1 cs1] Hin. cbn. f_equal. f_equal. f_equal.
    rewrite !length_app.
    replace (length s + length t - (length s1 + length t))%nat
      with (length s - length s1)%nat by lia.
    apply take_app_le. lia.
Qed.

End Locality.

(** ** Whitespace around the response *)

Section Padding.
Implicit Types (r : regex) (s t u m : str) (cs : captures).

(** Every match of [r] begins and ends with a character that is not
    whitespace. *)
Local Abbreviation solid r :=
  (∀ m cs, matches true r m [] cs →
     ∃ a b m', m = a :: m' ∧ is_space a = false
               ∧ last m = Some b ∧ is_space b = false).

Lemma filter_all {A} (P : A → Prop) `{!∀ x, Decision (P x)} (l : list A) :
  (∀ x, x ∈ l → P x) → filter P l = l.
Proof.
  induction l as [|x l IH]; intros Hall; [done|].
  rewrite filter_cons_True by (apply Hall; set_solver).
  f_equal. apply IH. intros y Hy. apply Hall. set_solver.
Qed.

Lemma blank_elem ws c : blank ws → c ∈ ws → is_space c = true.
Proof. intros Hws Hc. by eapply Forall_forall in Hws. Qed.

Lemma last_elem {A} (l : list A) x : last l = Some x → x ∈ l.
Proof.
  intros Hl. apply last_Some in Hl as [l' ->]. set_solver.
Qed.

(** A match that ends with a character other than whitespace does not
    reach into the whitespace after the text. *)
Lemma match_stays_within u ws m rest b :
  blank ws → u ++ ws = m ++ rest → last m = Some b → is_space b = false →
  (length ws ≤ length rest)%nat.
Proof.
  intros Hws Heq Hlast Hb.
  apply app_eq_inv in Heq as [(k & -> & ->)|(k & -> & ->)].
  - rewrite length_app. lia.
  - destruct k as [|c k _] using rev_ind; [cbn [app]; lia|].
    rewrite (assoc_L (++)), last_snoc in Hlast. injection Hlast as ->.
    assert (is_space b = true); [|congruence].
    apply (blank_elem _ _ Hws). set_solver.
Qed.

Lemma match_here_blank_suffix r u ws :
  solid r → blank ws →
  match_here true r (u ++ ws) = match_here true r u.
Proof.
  intros Hsolid Hws. unfold match_here.
  rewrite <- (filter_all (λ st : str * captures,
                            (length ws ≤ length st.1)%nat)
                (run true r (u ++ ws, []))).
  - rewrite run_local.
    destruct (run true r (u, [])) as [|[s' cs'] l]; [done|].
    cbn [fmap list_fmap head option_fmap option_map fst snd]. do 2 f_equal.
    rewrite !length_app.
    replace (length u + length ws - (length s' + length ws))%nat
      with (length u - length s')%nat by lia.
    apply take_app_le. lia.
  - intros [s' cs'] Hin. cbn [fst].
    apply run_sound in Hin as (m & Heq & Hm).
    destruct (Hsolid m cs' Hm) as (a & b & m' & _ & _ & Hlast & Hb).
    by eapply match_stays_within.
Qed.

Lemma search_blank r ws : solid r → blank ws → search true r ws = None.
Proof.
  intros Hsolid Hws.
  destruct (search true r ws) as [m|] eqn:Hs; [|done].
  apply search_Some in Hs as (pre & post & -> & Hm).
  destruct (Hsolid _ _ Hm) as (a & b & m' & Heq & Ha & _).
  assert (is_space a = true); [|congruence].
  apply (blank_elem _ _ Hws). rewrite Heq. set_solver.
Qed.

Lemma search_blank_suffix r t ws :
  solid r → blank ws → search true r (t ++ ws) = search true r t.
Proof.
  intros Hsolid Hws. induction t as [|c t IH].
  - cbn [app]. rewrite !search_blank by (done || constructor). done.
  - cbn [app search].
    change (c :: t ++ ws) with ((c :: t) ++ ws).
    rewrite match_here_blank_suffix by done.
    by destruct (match_here true r (c :: t)).
Qed.

Lemma search_blank_prefix r ws t :
  solid r → blank ws → search true r (ws ++ t) = search true r t.
Proof.
  intros Hsolid Hws. apply search_skip. intros a [|c b] -> Hb; [done|].
  destruct (match_here true r ((c :: b) ++ t)) as [m|] eqn:Hm; [|done].
  apply match_here_Some in Hm as (post & Heq & Hm).
  destruct (Hsolid _ _ Hm) as (a' & b' & m' & Hm' & Ha & _).
  rewrite Hm' in Heq. injection Heq as <- _.
  assert (is_space c = true); [|congruence].
  apply (blank_elem _ _ Hws). set_solver.
Qed.

Lemma fenced_pattern_solid : solid fenced_pattern.
Proof.
  intros m cs (tag & ws1 & span & ws2 & -> & _)%fenced_pattern_matches.
  exists 96, 96, ([96; 96] ++ tag ++ ws1 ++ span ++ ws2 ++ fence).
  split; [done|]. split; [done|]. split; [|done].
  unfold fenced_block. rewrite !(assoc_L (++)).
  change fence with ([96; 96] ++ [96]) at 2.
  by rewrite (assoc_L (++)), last_snoc.
Qed.

Lemma brace_pattern_solid : solid brace_pattern.
Proof.
  intros m cs [[body ->] _]%brace_pattern_matches.
  exists 123, 125, (body ++ py "}").
  split; [done|]. split; [done|]. split; [|done].
  change (py "}") with [125]. by rewrite (assoc_L (++)), last_snoc.
Qed.

(** Whitespace before and after the response changes nothing for the
    search of the candidate. *)
Lemma find_json_str_padding ws1 s ws2 :
  blank ws1 → blank ws2 → find_json_str (ws1 ++ s ++ ws2) = find_json_str s.
Proof.
  intros Hws1 Hws2. unfold find_json_str.
  rewrite (search_blank_prefix fenced_pattern), (search_blank_prefix brace_pattern)
    by (done || apply fenced_pattern_solid || apply brace_pattern_solid).
  rewrite (search_blank_suffix fenced_pattern), (search_blank_suffix brace_pattern)
    by (done || apply fenced_pattern_solid || apply brace_pattern_solid).
  done.
Qed.

End Padding.

Section Immaterial.
Context `{Library}.

(** X13: whitespace around the response is immaterial to the recoverer:
    the outcome and the lines printed are those of the response without
    it.  So the trimming done by [structure_to_json] never changes what is
    recovered. *)
Theorem surrounding_whitespace_is_immaterial self s w :
  (∀ ws1 ws2, blank ws1 → blank ws2 →
     extract_json_from_response self (ws1 ++ s ++ ws2) w
     = extract_json_from_response self s w)
  ∧ extract_json_from_response self (strip s) w
    = extract_json_from_response self s w.
Proof.
  assert (∀ ws1 t ws2, blank ws1 → blank ws2 →
            extract_json_from_response self (ws1 ++ t ++ ws2) w
            = extract_json_from_response self t w) as Hpad.
  { intros ws1 t ws2 Hws1 Hws2. rewrite !extract_json_from_response_run.
    by rewrite find_json_str_padding. }
  split; [intros ws1 ws2; apply Hpad|].
  destruct (strip_spec s) as (ws1 & ws2 & Hs & Hws1 & Hws2 & _).
  rewrite Hs at 2. symmetry. by apply Hpad.
Qed.

End Immaterial.

Lemma surrounding_whitespace_is_immaterial_witness :
  extract_json_from_response (H := Stub.library) (init default_host)
    (py "  " ++ Stub.scenario_json ++ nl) Stub.world
  = extract_json_from_response (H := Stub.library) (init default_host)
      Stub.scenario_json Stub.world.
Proof.
  apply (proj1 (surrounding_whitespace_is_immaterial (H := Stub.library)
                  (init default_host) Stub.scenario_json Stub.world)).
  - by repeat constructor.
  - by repeat constructor.
Defined.

(** ** The calls of a run *)

Section Requests.
Context `{Library}.

(** A request to the host of [self], with deterministic decoding and the
    bounded context window. *)
Local Abbreviation configured self :=
  (λ rq : Request, req_host rq = host self ∧ req_temperature rq = 0%Z
                   ∧ req_num_ctx rq = 2048%Z).

(** X14: whatever the outcome, a run makes at most two calls, each to the
    host the object was built with, at temperature 0 and with a context
    window of 2048. *)
Theorem every_call_is_configured self image_path output_csv w r w' :
  process_receipt self image_path output_csv w = (r, w') →
  ∃ new, requests w' = requests w ++ new
         ∧ (length new ≤ 2)%nat
         ∧ Forall (configured self) new.
Proof.
  assert (∀ rqs : list Request, (length rqs ≤ 2)%nat → Forall (configured self) rqs →
            ∀ w1, requests w1 = requests w ++ rqs →
              ∃ new, requests w1 = requests w ++ new
                     ∧ (length new ≤ 2)%nat ∧ Forall (configured self) new)
    as Hdone by (intros rqs ?? w1 ?; by exists rqs).
  rewrite process_receipt_run.
  case_bool_decide as Hsome.
  2: { intros [= <- <-]. apply (Hdone []); [cbn; lia|constructor|].
       by rewrite app_nil_r. }
  rewrite extract_image_data_run.
  destruct (files w !! image_path) as [bytes|]; cbv zeta.
  2: { intros [= <- <-]. apply (Hdone []); [cbn; lia|constructor|].
       unfold printed. cbn [requests]. by rewrite app_nil_r. }
  destruct (client_chat (requests w) _) as [msg|answer1].
  { intros [= <- <-].
    apply (Hdone [vision_request self (b64encode bytes)]);
      [cbn; lia|by repeat constructor|done]. }
  rewrite structure_to_json_run, requests_printed_called.
  set (rqs := [vision_request self (b64encode bytes);
               text_request self (strip answer1)]).
  assert ((length rqs ≤ 2)%nat ∧ Forall (configured self) rqs) as [Hlen Hall]
    by (split; [cbn; lia|by repeat constructor]).
  destruct (client_chat (requests w ++ _) _) as [msg|answer2].
  { intros [= <- <-]. apply (Hdone rqs); [done..|].
    by rewrite !requests_printed_called, <- (assoc_L (++)). }
  destruct (extract_json_from_response _ _ _) as [[e|d] w3] eqn:Hr;
    apply extract_json_from_response_effect in Hr as [_ Hr];
    rewrite !requests_printed_called, <- (assoc_L (++)) in Hr.
  { intros [= <- <-]. by apply (Hdone rqs). }
  destruct (create_dataframe _ _ _) as [[e|df] w4] eqn:Hb;
    apply create_dataframe_effect in Hb as [_ Hb]; rewrite Hr in Hb.
  { intros [= <- <-]. by apply (Hdone rqs). }
  intros [= <- <-]. apply (Hdone rqs); [done..|].
  by destruct (truthy output_csv).
Qed.

End Requests.

Lemma every_call_is_configured_witness :
  ∃ new,
    requests (process_receipt (H := Stub.library) (init (py "http://gpu:11434"))
                (py "certidao.png") None Stub.world).2
    = requests Stub.world ++ new
    ∧ (length new ≤ 2)%nat
    ∧ Forall (λ rq, req_host rq = py "http://gpu:11434") new.
Proof.
  destruct (process_receipt (H := Stub.library) (init (py "http://gpu:11434"))
              (py "certidao.png") None Stub.world) as [r w'] eqn:Hrun.
  destruct (every_call_is_configured (H := Stub.library) _ _ _ _ _ _ Hrun)
    as (new & Hnew & Hlen & Hall).
  exists new. split; [exact Hnew|]. split; [exact Hlen|].
  eapply Forall_impl; [exact Hall|]. by intros rq [? _].
Defined.
